(** * QuickBatch: filename parsing, duration matching and safe audio replace

    A shallow embedding of [QuickBatch.py] (and of the one function in which
    [video_renamer.py] differs from it), followed by the properties of the
    embedded functions.

    Conventions of the embedding.
    - A Python [str] is a [list ascii]: file names are modelled over 8-bit
      characters (code points below 256).  On this range the class [\d] of
      Python's [re] is exactly [0-9], and under [re.IGNORECASE] a letter
      matches its two cases only.  Names with other characters are not
      covered: there the letter [s] of a pattern also matches U+017F.
    - The parsers are applied to final path components ([p.name]), as they
      are everywhere in the program, so that [Path(filename).stem] is the
      stem of the string itself.
    - A [pathlib.Path] is the list of its components, outermost first; paths
      are absolute and normalised (no [.] or [..] components, no links).
    - The file system is a finite map from paths to file contents.
      Directories are not tracked: an operation on a directory can fail only
      through the injected faults of the environment.
    - An exception is a value of an error type; [try]/[except] is a match. *)

From Stdlib Require Import List Ascii String Arith Lia Bool.
From Stdlib Require Import Decimal DecimalString DecimalNat.
From stdpp Require Import base option list gmap.
Import ListNotations.

Set Warnings "-notation-for-abbreviation".

Local Open Scope char_scope.
Local Open Scope list_scope.
Local Open Scope nat_scope.

(** ** Python strings *)

Module Py.

Definition pystr := list ascii.

(** String literals. *)
Definition str (s : string) : pystr := list_ascii_of_string s.

Definition code (c : ascii) : nat := nat_of_ascii c.

Definition in_range (lo hi c : ascii) : bool :=
  (code lo <=? code c) && (code c <=? code hi).

Definition is_digit (c : ascii) : bool := in_range "0" "9" c.

Definition is_alpha (c : ascii) : bool :=
  in_range "a" "z" c || in_range "A" "Z" c.

(** [str.lower] on one character: [A-Z] and the Latin-1 capitals
    U+00C0..U+00DE (the multiplication sign U+00D7 apart). *)
Definition lower_char (c : ascii) : ascii :=
  if in_range "A" "Z" c
     || ((192 <=? code c) && (code c <=? 222) && negb (code c =? 215))
  then ascii_of_nat (code c + 32) else c.

(** [str.upper] on one character: [a-z] and the Latin-1 small letters
    U+00E0..U+00FE (the division sign U+00F7 apart).  The three characters
    below 256 whose upper case lies outside this range (U+00B5, U+00DF,
    U+00FF) are left as they are; none of them becomes an ASCII letter
    other than [S], so tests for "WIP" are unaffected. *)
Definition upper_char (c : ascii) : ascii :=
  if in_range "a" "z" c
     || ((224 <=? code c) && (code c <=? 254) && negb (code c =? 247))
  then ascii_of_nat (code c - 32) else c.

Definition lower (s : pystr) : pystr := map lower_char s.
Definition upper (s : pystr) : pystr := map upper_char s.

(** [s.startswith(p)] *)
Fixpoint startswith (p s : pystr) : bool :=
  match p, s with
  | [], _ => true
  | a :: p', b :: s' => Ascii.eqb a b && startswith p' s'
  | _ :: _, [] => false
  end.

(** [s.endswith(p)] *)
Definition endswith (p s : pystr) : bool := startswith (rev p) (rev s).

(** [p in s] *)
Fixpoint contains (p s : pystr) : bool :=
  startswith p s || match s with [] => false | _ :: t => contains p t end.

(** [s.replace(old, new)] for a non-empty [old]: occurrences are replaced
    from left to right and do not overlap; [skip] counts the characters of
    a replaced occurrence that are still to be dropped. *)
Fixpoint replace_from (old new : pystr) (skip : nat) (s : pystr) : pystr :=
  match s with
  | [] => []
  | c :: t =>
      match skip with
      | S n => replace_from old new n t
      | O => if startswith old s
             then new ++ replace_from old new (length old - 1) t
             else c :: replace_from old new 0 t
      end
  end.

Definition replace (old new s : pystr) : pystr := replace_from old new 0 s.

(** [s.rfind(c)] for a single character. *)
Fixpoint rfind (c : ascii) (s : pystr) : option nat :=
  match s with
  | [] => None
  | x :: t =>
      match rfind c t with
      | Some i => Some (S i)
      | None => if Ascii.eqb x c then Some 0 else None
      end
  end.

(** [PurePath.suffix] and [PurePath.stem] of a final path component, as in
    [pathlib]: the last dot splits the name unless it is the first or the
    last character. *)
Definition split_ext (name : pystr) : pystr * pystr :=
  match rfind "." name with
  | Some i =>
      if (0 <? i) && (i <? length name - 1)
      then (firstn i name, skipn i name)
      else (name, [])
  | None => (name, [])
  end.

Definition stem (name : pystr) : pystr := fst (split_ext name).
Definition suffix (name : pystr) : pystr := snd (split_ext name).

(** [f"{n}"] for a non-negative integer. *)
Definition fmt_int (n : nat) : pystr :=
  str (NilEmpty.string_of_uint (Nat.to_uint n)).

End Py.

(** ** The fragment of Python's [re] used by the program

    A backtracking matcher in continuation-passing style: alternatives are
    tried in order, repetition is greedy, and the first success wins, as in
    [re].  Repetition is needed on character classes only. *)

Module Re.
Import Py.

Inductive cls : Type :=
| Digit                       (* \d *)
| Range (lo hi : ascii)       (* lo-hi inside [...] *)
| Union (a b : cls)           (* [...] with several items *)
| Lit (c : ascii).            (* a literal character *)

Inductive re : Type :=
| Eps
| Chr (c : cls)
| Rep (c : cls) (lo : nat) (hi : option nat)   (* c{lo,hi}, greedy *)
| Seq (a b : re)
| Alt (a b : re)
| Grp (i : nat) (r : re)                       (* capturing group i *)
| Bos                                          (* ^ *)
| Eos.                                         (* $ *)

(** Concatenation of a list of items. *)
Definition cat (rs : list re) : re := fold_right Seq Eps rs.

(** [chr c] is the literal [c]; [plus c] is [c+]. *)
Definition chr (c : ascii) : re := Chr (Lit c).
Definition plus (c : cls) : re := Rep c 1 None.

(** [ic] is the flag [re.IGNORECASE]. *)
Fixpoint cls_match (ic : bool) (c : cls) (x : ascii) : bool :=
  match c with
  | Digit => is_digit x
  | Range lo hi =>
      in_range lo hi x
      || (ic && (in_range lo hi (lower_char x)
                 || in_range lo hi (upper_char x)))
  | Union a b => cls_match ic a x || cls_match ic b x
  | Lit c => Ascii.eqb x c || (ic && Ascii.eqb (lower_char x) (lower_char c))
  end.

(** Captured groups, most recent first. *)
Definition caps := list (nat * pystr).
Definition cont := pystr -> caps -> option caps.

Definition hi_allows (hi : option nat) : bool :=
  match hi with Some 0 => false | _ => true end.

Definition or_else (a b : option caps) : option caps :=
  match a with Some g => Some g | None => b end.

(** Greedy repetition of a class: take one more character if possible, and
    fall back to stopping here when the rest fails. *)
Fixpoint rep (ic : bool) (c : cls) (lo : nat) (hi : option nat)
         (s : pystr) (g : caps) (k : cont) : option caps :=
  let stop := if lo =? 0 then k s g else None in
  match s with
  | x :: t =>
      if cls_match ic c x && hi_allows hi
      then or_else (rep ic c (pred lo) (option_map pred hi) t g k) stop
      else stop
  | [] => stop
  end.

(** [$] matches at the end of the string and just before a final newline. *)
Definition at_end (s : pystr) : bool :=
  match s with
  | [] => true
  | [x] => Ascii.eqb x "010"
  | _ => false
  end.

(** [run ic n r s g k]: match [r] at the front of [s], the rest of an input
    of length [n], then continue with [k]. *)
Fixpoint run (ic : bool) (n : nat) (r : re) (s : pystr) (g : caps) (k : cont)
  : option caps :=
  match r with
  | Eps => k s g
  | Chr c =>
      match s with
      | x :: t => if cls_match ic c x then k t g else None
      | [] => None
      end
  | Rep c lo hi => rep ic c lo hi s g k
  | Seq a b => run ic n a s g (fun s' g' => run ic n b s' g' k)
  | Alt a b => or_else (run ic n a s g k) (run ic n b s g k)
  | Grp i r' =>
      run ic n r' s g
          (fun s' g' => k s' ((i, firstn (length s - length s') s) :: g'))
  | Bos => if length s =? n then k s g else None
  | Eos => if at_end s then k s g else None
  end.

Definition accept : cont := fun _ g => Some g.

(** [re.match]: at the start of the string only. *)
Definition match_ (ic : bool) (r : re) (s : pystr) : option caps :=
  run ic (length s) r s [] accept.

(** [re.search]: the leftmost position at which the pattern matches. *)
Fixpoint search_from (ic : bool) (n : nat) (r : re) (s : pystr) : option caps :=
  or_else (run ic n r s [] accept)
          (match s with
           | [] => None
           | _ :: t => search_from ic n r t
           end).

Definition search (ic : bool) (r : re) (s : pystr) : option caps :=
  search_from ic (length s) r s.

(** [m.group(i)] *)
Fixpoint group (m : caps) (i : nat) : pystr :=
  match m with
  | [] => []
  | (j, t) :: m' => if i =? j then t else group m' i
  end.

End Re.

(** ** Filename parsing *)

Module QuickBatch.
Import Py Re.

Definition alpha : cls := Union (Range "a" "z") (Range "A" "Z").

(** [r'_(\d+s)_([a-zA-Z]{2,})_(\d+x\d+)'] *)
Definition format_re : re :=
  cat [ chr "_"; Grp 1 (cat [plus Digit; chr "s"]);
        chr "_"; Grp 2 (Rep alpha 2 None);
        chr "_"; Grp 3 (cat [plus Digit; chr "x"; plus Digit]) ].

(** [r'^([a-zA-Z]{2})_'] *)
Definition prefix_re : re :=
  cat [ Bos; Grp 1 (Rep alpha 2 (Some 2)); chr "_" ].

Definition extract_language_prefix (filename : pystr) : pystr :=
  let name_without_ext := stem filename in
  match search false format_re name_without_ext with
  | Some match_format => lower (group match_format 2)
  | None =>
      match match_ false prefix_re name_without_ext with
      | Some match_prefix => lower (group match_prefix 1)
      | None => str "en"
      end
  end.

Definition format_duration (seconds : nat) : pystr :=
  fmt_int seconds ++ str "s".

Definition generate_new_filename
           (custom_name : pystr) (duration : nat) (lang_code resolution : pystr)
  : pystr :=
  let duration_str := format_duration duration in
  custom_name ++ str "_" ++ duration_str ++ str "_" ++ lang_code
              ++ str "_" ++ resolution ++ str ".mp4".

(** [r'(\d+(?:s|sec))'] with [re.IGNORECASE] *)
Definition audio_duration_re : re :=
  Grp 1 (cat [ plus Digit;
               Alt (chr "s") (cat [chr "s"; chr "e"; chr "c"]) ]).

Definition extract_duration_from_audio_name (filename : pystr) : option pystr :=
  let name_without_ext := stem filename in
  match search true audio_duration_re name_without_ext with
  | Some m =>
      let duration := lower (group m 1) in
      let duration :=
        if endswith (str "sec") duration
        then replace (str "sec") (str "s") duration
        else duration in
      Some duration
  | None => None
  end.

(** [r'(\d+s)'] *)
Definition video_duration_re : re := Grp 1 (cat [plus Digit; chr "s"]).

Definition extract_duration_from_video_name (filename : pystr) : option pystr :=
  let name_without_ext := stem filename in
  match search false video_duration_re name_without_ext with
  | Some m => Some (group m 1)
  | None => None
  end.

End QuickBatch.

(** [video_renamer.py] is [QuickBatch.py] with messages in another language,
    except for the first pattern of [extract_language_prefix]. *)

Module VideoRenamer.
Import Py Re.

(** [r'_(\d+s)_([a-zA-Z]{2})_(\d+x\d+)$'] *)
Definition middle_re : re :=
  cat [ chr "_"; Grp 1 (cat [plus Digit; chr "s"]);
        chr "_"; Grp 2 (Rep QuickBatch.alpha 2 (Some 2));
        chr "_"; Grp 3 (cat [plus Digit; chr "x"; plus Digit]); Eos ].

Definition extract_language_prefix (filename : pystr) : pystr :=
  let name_without_ext := stem filename in
  match search false middle_re name_without_ext with
  | Some match_middle => lower (group match_middle 2)
  | None =>
      match match_ false QuickBatch.prefix_re name_without_ext with
      | Some match_prefix => lower (group match_prefix 1)
      | None => str "en"
      end
  end.

End VideoRenamer.

(** ** Paths and the file system *)

Module Fs.
Import Py.

Notation path := (list (list ascii)).
Notation bytes := (list Byte.byte).
Notation FS := (gmap (list (list ascii)) (list Byte.byte)).

(** [p.parent]: the parent of the root is the root. *)
Definition parent (p : path) : path := removelast p.

(** [p.name]: empty for the root. *)
Definition name (p : path) : pystr := List.last p [].

(** [p / n]: joining an empty name changes nothing. *)
Definition join (p : path) (n : pystr) : path :=
  match n with
  | [] => p
  | _ :: _ => p ++ [n]
  end.

Declare Scope path_scope.
Delimit Scope path_scope with path.
Infix "/" := join : path_scope.

(** Exceptions: [subprocess.CalledProcessError], and [OSError] standing
    for every other [Exception]. *)
Inductive exn : Type := CalledProcessError | OSError.

Inductive res (A : Type) : Type :=
| Ok (a : A)
| Err (e : exn).
Arguments Ok {A} a.
Arguments Err {A} e.

(** Computations on the file system that may raise. *)
Definition M (A : Type) : Type := FS -> res A * FS.

Definition ret {A} (a : A) : M A := fun fs => (Ok a, fs).

Definition bind {A B} (m : M A) (k : A -> M B) : M B :=
  fun fs =>
    match m fs with
    | (Ok a, fs') => k a fs'
    | (Err e, fs') => (Err e, fs')
    end.

Definition raise {A} (e : exn) : M A := fun fs => (Err e, fs).

(** [p.exists()] *)
Definition exists_ (p : path) : M bool :=
  fun fs => (Ok (match fs !! p with Some _ => true | None => false end), fs).

(** [p.unlink()]; [fault] is an error imposed by the environment. *)
Definition unlink (fault : bool) (p : path) : M unit :=
  fun fs =>
    if fault then (Err OSError, fs)
    else match fs !! p with
         | Some _ => (Ok tt, delete p fs)
         | None => (Err OSError, fs)
         end.

(** [shutil.move(src, dst)] and [src.rename(dst)] for files: the content
    of [src] replaces whatever is at [dst]. *)
Definition move (fault : bool) (src dst : path) : M unit :=
  fun fs =>
    if fault then (Err OSError, fs)
    else match fs !! src with
         | Some c => (Ok tt, <[dst := c]> (delete src fs))
         | None => (Err OSError, fs)
         end.

(** [d.mkdir(parents=True, exist_ok=True)] and [d.mkdir(exist_ok=True)]:
    no file is touched. *)
Definition mkdir (fault : bool) (d : path) : M unit :=
  fun fs => if fault then (Err OSError, fs) else (Ok tt, fs).

End Fs.

Declare Scope fs_scope.
Delimit Scope fs_scope with fs.
Notation "x <- m ;; k" := (Fs.bind m (fun x => k))
  (at level 100, m at next level, right associativity) : fs_scope.
Notation "m ;;; k" := (Fs.bind m (fun _ => k))
  (at level 100, right associativity) : fs_scope.

(** ** Duplicate names *)

Module Resolver.
Import Py Fs.
Local Open Scope path_scope.

(** [parent_dir / f"{base_name}_{counter}{extension}"] *)
Definition candidate (target_path : path) (counter : nat) : path :=
  let base_name := stem (name target_path) in
  let extension := suffix (name target_path) in
  let parent_dir := parent target_path in
  let new_name := base_name ++ str "_" ++ fmt_int counter ++ extension in
  parent_dir / new_name.

(** The [while True] loop, bounded by [fuel] probes. *)
Fixpoint probe (fs : FS) (target_path : path) (fuel counter : nat)
  : option path :=
  match fuel with
  | O => None
  | S fuel' =>
      let new_path := candidate target_path counter in
      match fs !! new_path with
      | None => Some new_path
      | Some _ => probe fs target_path fuel' (S counter)
      end
  end.

(** One probe more than there are files always suffices
    ([probe_terminates] below), so the fallback is never taken. *)
Definition handle_duplicate_names (fs : FS) (target_path : path) : path :=
  match fs !! target_path with
  | None => target_path
  | Some _ =>
      match probe fs target_path (S (size fs)) 1 with
      | Some new_path => new_path
      | None => target_path
      end
  end.

End Resolver.

(** ** Duration grouping and the matching policy *)

Module Matching.
Import Py Fs.

(** A Python [dict] from duration markers ([None] included) to lists of
    files, in insertion order. *)
Definition dict := list (option pystr * list path).

Definition keys (d : dict) : list (option pystr) := map fst d.
Definition values (d : dict) : list (list path) := map snd d.

(** [d.get(k)] *)
Fixpoint dict_get (d : dict) (k : option pystr) : option (list path) :=
  match d with
  | [] => None
  | (k', l) :: d' => if decide (k = k') then Some l else dict_get d' k
  end.

(** [k in d] *)
Definition dict_mem (d : dict) (k : option pystr) : bool :=
  match dict_get d k with Some _ => true | None => false end.

(** [d.get(k, [])] *)
Definition dict_get_default (d : dict) (k : option pystr) : list path :=
  default [] (dict_get d k).

(** [if k not in d: d[k] = []] followed by [d[k].append(x)] *)
Fixpoint dict_append (d : dict) (k : option pystr) (x : path) : dict :=
  match d with
  | [] => [(k, [x])]
  | (k', l) :: d' =>
      if decide (k = k') then (k', l ++ [x]) :: d'
      else (k', l) :: dict_append d' k x
  end.

Definition group_by_duration
           (extract : pystr -> option pystr) (files : list path) : dict :=
  fold_left (fun d f => dict_append d (extract (name f)) f) files [].

(** [wav_files] is [list(current_dir.glob("*.wav"))]. *)
Definition find_audio_files (wav_files : list path) : dict :=
  group_by_duration QuickBatch.extract_duration_from_audio_name wav_files.

(** [video_files] is the concatenation of [subfolder.glob("*.mp4")] over
    the sub-directories of the current directory. *)
Definition find_video_files_in_subfolders (video_files : list path) : dict :=
  group_by_duration QuickBatch.extract_duration_from_video_name video_files.

(** [[d for d in audio_by_duration.keys() if d is not None]] *)
Definition concrete_keys (d : dict) : list pystr := omap id (keys d).

(** The two nested [for] loops: the (video, audio) arguments of the calls
    of [merge_audio_video], in order. *)
Definition cross (audio_files video_files : list path) : list (path * path) :=
  flat_map (fun audio_file => map (fun video_file => (video_file, audio_file))
                                  video_files)
           audio_files.

(** The pairs that [sound_merge_mode] processes, in order.  [None] is a
    [KeyError] on [audio_by_duration[...]].  In the second branch
    [target_videos.extend] also lengthens the list stored in
    [video_by_duration], which is not read again. *)
Definition merge_pairs (audio_by_duration video_by_duration : dict)
  : option (list (path * path)) :=
  match audio_by_duration, video_by_duration with
  | [], _ => Some []
  | _, [] => Some []
  | _, _ =>
      let audio_durations := concrete_keys audio_by_duration in
      if length audio_durations =? 0 then
        audio_files ← dict_get audio_by_duration None;
        let all_videos := concat (values video_by_duration) in
        Some (cross audio_files all_videos)
      else if (length audio_durations =? 1)
              && negb (dict_mem audio_by_duration None) then
        duration ← head audio_durations;
        audio_files ← dict_get audio_by_duration (Some duration);
        let target_videos :=
          dict_get_default video_by_duration (Some duration) in
        let target_videos :=
          if dict_mem video_by_duration None
          then target_videos ++ dict_get_default video_by_duration None
          else target_videos in
        Some (cross audio_files target_videos)
      else
        per_duration ←
          mapM (fun duration =>
                  audio_files ← dict_get audio_by_duration (Some duration);
                  let video_files :=
                    dict_get_default video_by_duration (Some duration) in
                  Some (cross audio_files video_files))
               audio_durations;
        Some (concat per_duration)
  end.

End Matching.

(** ** Safe replace with a one-time backup *)

Module Replace.
Import Py Fs.
Local Open Scope path_scope.
Local Open Scope fs_scope.

(** What the external encoder does in one invocation. *)
Inductive encoder_outcome : Type :=
| EncodeOk (output : bytes)          (* exit code 0, output written *)
| EncodeExit (left : option bytes)   (* non-zero exit; what is left at the
                                        output path, if anything *)
| EncodeNotFound.                    (* the process could not be started *)

(** The environment of one call of [merge_audio_video]: the random part of
    the name chosen by [tempfile], the encoder's outcome, and the operations
    on which the operating system reports an error. *)
Record env : Type := {
  tmp_random : pystr;
  tmp_fails : bool;            (* NamedTemporaryFile *)
  encoder : encoder_outcome;   (* subprocess.run(cmd, check=True) *)
  mkdir_fails : bool;          (* backup_lang_dir.mkdir *)
  unlink_fails : bool;         (* video_path.unlink() *)
  backup_move_fails : bool;    (* shutil.move(video_path, backup_path) *)
  commit_move_fails : bool;    (* shutil.move(temp_path, video_path) *)
  cleanup_fails : bool         (* temp_path.unlink() in a handler *)
}.

(** The names of [tempfile]: the prefix [tmp], random characters and the
    suffix. *)
Definition tmp_name (e : env) : pystr :=
  str "tmp" ++ tmp_random e ++ str ".mp4".

(** [tempfile.NamedTemporaryFile(suffix='.mp4', dir=d, delete=False)]: a
    new empty file under a name that is not in use. *)
Definition named_temporary_file (e : env) (d : path) : M path :=
  fun fs =>
    let temp_path := d / tmp_name e in
    if tmp_fails e then (Err OSError, fs)
    else match fs !! temp_path with
         | Some _ => (Err OSError, fs)
         | None => (Ok temp_path, <[temp_path := []]> fs)
         end.

(** [subprocess.run(['ffmpeg', ..., '-y', str(temp_path)], check=True)] *)
Definition ffmpeg (e : env) (video_path audio_path temp_path : path) : M unit :=
  fun fs =>
    match encoder e with
    | EncodeOk output => (Ok tt, <[temp_path := output]> fs)
    | EncodeExit (Some partial) =>
        (Err CalledProcessError, <[temp_path := partial]> fs)
    | EncodeExit None => (Err CalledProcessError, delete temp_path fs)
    | EncodeNotFound => (Err OSError, fs)
    end.

Definition backup_lang_dir (video_path : path) : path :=
  let main_dir := parent (parent video_path) in
  let lang_folder_name := name (parent video_path) in
  let backup_main_dir := main_dir / str "backup" in
  backup_main_dir / lang_folder_name.

Definition create_backup_folder (e : env) (video_path : path) : M path :=
  let backup_lang_dir := backup_lang_dir video_path in
  mkdir (mkdir_fails e) backup_lang_dir ;;;
  ret backup_lang_dir.

(** [backup_dir / video_path.name] *)
Definition backup_path_of (video_path : path) : path :=
  backup_lang_dir video_path / name video_path.

(** The body of the [try] after the temporary file has been created. *)
Definition merge_body (e : env) (video_path audio_path temp_path : path)
  : M unit :=
  ffmpeg e video_path audio_path temp_path ;;;
  backup_dir <- create_backup_folder e video_path ;;
  let backup_path := backup_dir / name video_path in
  backup_exists <- exists_ backup_path ;;
  if backup_exists : bool then
    unlink (unlink_fails e) video_path ;;;
    move (commit_move_fails e) temp_path video_path
  else
    move (backup_move_fails e) video_path backup_path ;;;
    move (commit_move_fails e) temp_path video_path.

(** How a call ends: it returns a Boolean, or an exception escapes. *)
Inductive outcome : Type := Returned (b : bool) | Raised.

(** Both [except] clauses: delete the temporary file if it is there, and
    return [False]. *)
Definition handler (e : env) (temp_path : option path) (fs : FS)
  : outcome * FS :=
  match temp_path with
  | Some tp =>
      match exists_ tp fs with
      | (Ok true, _) =>
          match unlink (cleanup_fails e) tp fs with
          | (Ok _, fs') => (Returned false, fs')
          | (Err _, fs') => (Raised, fs')
          end
      | _ => (Returned false, fs)
      end
  | None => (Returned false, fs)
  end.

Definition merge_audio_video (e : env) (video_path audio_path : path) (fs : FS)
  : outcome * FS :=
  let video_dir := parent video_path in
  match named_temporary_file e video_dir fs with
  | (Err _, fs1) => handler e None fs1
  | (Ok temp_path, fs1) =>
      match merge_body e video_path audio_path temp_path fs1 with
      | (Ok _, fs2) => (Returned true, fs2)
      | (Err CalledProcessError, fs2) => handler e (Some temp_path) fs2
      | (Err OSError, fs2) => handler e (Some temp_path) fs2
      end
  end.

(** [temp_path] of a call. *)
Definition temp_path_of (e : env) (video_path : path) : path :=
  parent video_path / tmp_name e.

(** Successive calls on one video, each in its own environment and with its
    own audio file; the outcomes are listed in order. *)
Fixpoint merge_repeatedly (calls : list (env * path)) (video_path : path)
         (fs : FS) : list outcome * FS :=
  match calls with
  | [] => ([], fs)
  | (e, audio_path) :: rest =>
      let (o, fs') := merge_audio_video e video_path audio_path fs in
      let (os, fs'') := merge_repeatedly rest video_path fs' in
      (o :: os, fs'')
  end.

(** The number of components of a path that are named [backup]; it tells
    the backup path of a video from the video and from its temporary file. *)
Definition backups (p : path) : nat :=
  length (List.filter (fun c => bool_decide (c = str "backup")) p).

Definition is_backup (n : pystr) : nat :=
  if bool_decide (n = str "backup") then 1 else 0.

(** How [sound_merge_mode] ends. *)
Inductive mode_result : Type :=
| Finished (processed_count : nat)
| Stopped      (* a precondition failed: message and [return] *)
| Crashed.     (* an exception escaped *)

(** The loops over the pairs: [envs i] is the environment of call [i]. *)
Fixpoint merge_all (envs : nat -> env) (i : nat) (pairs : list (path * path))
         (processed_count : nat) (fs : FS) : mode_result * FS :=
  match pairs with
  | [] => (Finished processed_count, fs)
  | (video_file, audio_file) :: rest =>
      match merge_audio_video (envs i) video_file audio_file fs with
      | (Returned true, fs') =>
          merge_all envs (S i) rest (processed_count + 1) fs'
      | (Returned false, fs') => merge_all envs (S i) rest processed_count fs'
      | (Raised, fs') => (Crashed, fs')
      end
  end.

Definition sound_merge_mode (ffmpeg_found : bool)
           (wav_files video_files : list path) (envs : nat -> env) (fs : FS)
  : mode_result * FS :=
  if negb ffmpeg_found then (Stopped, fs)
  else
    let audio_by_duration := Matching.find_audio_files wav_files in
    let video_by_duration :=
      Matching.find_video_files_in_subfolders video_files in
    match audio_by_duration, video_by_duration with
    | [], _ => (Stopped, fs)
    | _, [] => (Stopped, fs)
    | _, _ =>
        match Matching.merge_pairs audio_by_duration video_by_duration with
        | Some pairs => merge_all envs 0 pairs 0 fs
        | None => (Crashed, fs)
        end
    end.

End Replace.

(** ** Rename mode *)

Module Rename.
Import Py Fs.
Local Open Scope path_scope.
Local Open Scope fs_scope.

(** The environment of a run: what the metadata reader returns for a file
    ([None] for [(None, None)]), and the operations on which the operating
    system reports an error. *)
Record env : Type := {
  metadata : path -> option (pystr * nat);
  rename_fails : path -> path -> bool;
  mkdir_fails : path -> bool
}.

Definition create_language_folder (e : env) (cwd : path) (lang_code : pystr)
  : M path :=
  let folder_name := upper lang_code in
  let folder_path := cwd / folder_name in
  mkdir (mkdir_fails e folder_path) folder_path ;;;
  ret folder_path.

Definition organize_by_language
           (e : env) (cwd : path) (file_path : path) (lang_code : pystr)
  : M path :=
  lang_folder <- create_language_folder e cwd lang_code ;;
  let target_path := lang_folder / name file_path in
  fun fs =>
    let target_path := Resolver.handle_duplicate_names fs target_path in
    (move (rename_fails e file_path target_path) file_path target_path ;;;
     ret target_path) fs.

(** The state of the loop over the files. *)
Record state : Type := {
  processed_count : nat;
  error_count : nat;
  metadata_reads : list path;   (* arguments of [get_video_metadata] *)
  files : FS
}.

(** [if "WIP" in video_file.name.upper()] *)
Definition is_wip (video_file : path) : bool :=
  contains (str "WIP") (upper (name video_file)).

(** One iteration of [for video_file in filtered_files]. *)
Definition process_file (e : env) (cwd : path) (custom_name : pystr)
           (st : state) (video_file : path) : state :=
  let lang_code := QuickBatch.extract_language_prefix (name video_file) in
  let reads := metadata_reads st ++ [video_file] in
  match metadata e video_file with
  | None =>
      {| processed_count := processed_count st;
         error_count := error_count st + 1;
         metadata_reads := reads;
         files := files st |}
  | Some (resolution, duration) =>
      let new_filename :=
        QuickBatch.generate_new_filename custom_name duration lang_code
                                         resolution in
      let new_path := parent video_file / new_filename in
      let new_path := Resolver.handle_duplicate_names (files st) new_path in
      match (move (rename_fails e video_file new_path) video_file new_path ;;;
             organize_by_language e cwd new_path lang_code) (files st) with
      | (Ok _, fs') =>
          {| processed_count := processed_count st + 1;
             error_count := error_count st;
             metadata_reads := reads;
             files := fs' |}
      | (Err _, fs') =>
          {| processed_count := processed_count st;
             error_count := error_count st + 1;
             metadata_reads := reads;
             files := fs' |}
      end
  end.

(** [custom_name] is the stripped input; [mp4_files] is
    [list(current_dir.glob("*.mp4"))].  [None]: the mode stops with a
    message before any file is processed. *)
Definition video_rename_mode (e : env) (cwd : path) (custom_name : pystr)
           (mp4_files : list path) (fs : FS) : option state :=
  match custom_name, mp4_files with
  | [], _ => None
  | _, [] => None
  | _, _ =>
      let filtered_files := List.filter (fun f => negb (is_wip f)) mp4_files in
      Some (fold_left (process_file e cwd custom_name) filtered_files
                      {| processed_count := 0; error_count := 0;
                         metadata_reads := []; files := fs |})
  end.

End Rename.

(** ** Shapes of file names

    The patterns of the parsers, stated on strings, and the one-pass readers
    to which the backtracking matcher is compared. *)

Module Shape.
Import Py.

(** A non-empty string of digits. *)
Definition digits (s : pystr) : Prop :=
  s <> [] /\ Forall (fun c => is_digit c = true) s.

(** A string of ASCII letters. *)
Definition letters (s : pystr) : Prop :=
  Forall (fun c => is_alpha c = true) s.

(** [s] begins with a structured segment
    [_<digits>s_<letters, at least two>_<digits>x<digits>] whose letters
    group is [lang]. *)
Definition structured_at (lang s : pystr) : Prop :=
  exists d w h rest,
    s = str "_" ++ d ++ str "s_" ++ lang ++ str "_" ++ w ++ str "x" ++ h ++ rest
    /\ digits d /\ 2 <= length lang /\ letters lang /\ digits w /\ digits h.

(** [c] is the letter [s] in either case. *)
Definition is_s (c : ascii) : Prop := c = "s" \/ c = "S".
Definition is_e (c : ascii) : Prop := c = "e" \/ c = "E".
Definition is_c (c : ascii) : Prop := c = "c" \/ c = "C".

(** [s] begins with digits followed by the letter [s] in either case. *)
Definition audio_marker_at (s : pystr) : Prop :=
  exists d c rest, s = d ++ c :: rest /\ digits d /\ is_s c.

(** The longest prefix of [s] whose characters satisfy [p], and what follows
    it. *)
Fixpoint run_of (p : ascii -> bool) (s : pystr) : pystr :=
  match s with
  | x :: t => if p x then x :: run_of p t else []
  | [] => []
  end.

Fixpoint after_run (p : ascii -> bool) (s : pystr) : pystr :=
  match s with
  | x :: t => if p x then after_run p t else s
  | [] => []
  end.

(** One-pass readers: a given character, and the longest run of a class
    with its length between [lo] and [hi]. *)
Definition expect (c : ascii) (s : pystr) : option pystr :=
  match s with
  | x :: t => if Ascii.eqb x c then Some t else None
  | [] => None
  end.

Definition within (hi : option nat) (n : nat) : bool :=
  match hi with None => true | Some h => n <=? h end.

Definition read_run (p : ascii -> bool) (lo : nat) (hi : option nat) (s : pystr)
  : option (pystr * pystr) :=
  let r := run_of p s in
  if (lo <=? length r) && within hi (length r)
  then Some (r, after_run p s) else None.

(** Reading a structured segment from left to right without backtracking;
    [hi] bounds the length of the letters group, [anchored] asks for the end
    of the string after the segment.  The result is the letters group. *)
Definition read_structured (hi : option nat) (anchored : bool) (s : pystr)
  : option pystr :=
  s1 ← expect "_" s;
  '(_, s2) ← read_run is_digit 1 None s1;
  s3 ← expect "s" s2;
  s4 ← expect "_" s3;
  '(lang, s5) ← read_run is_alpha 2 hi s4;
  s6 ← expect "_" s5;
  '(_, s7) ← read_run is_digit 1 None s6;
  s8 ← expect "x" s7;
  '(_, s9) ← read_run is_digit 1 None s8;
  if negb anchored || Re.at_end s9 then Some lang else None.

(** The two patterns for structured names, as one pattern with parameters. *)
Definition structured_re (hi : option nat) (anchored : bool) : Re.re :=
  Re.cat ([ Re.chr "_"; Re.Grp 1 (Re.cat [Re.plus Re.Digit; Re.chr "s"]);
            Re.chr "_";
            Re.Grp 2 (Re.Rep (Re.Union (Re.Range "a" "z") (Re.Range "A" "Z"))
                             2 hi);
            Re.chr "_";
            Re.Grp 3 (Re.cat [Re.plus Re.Digit; Re.chr "x"; Re.plus Re.Digit]) ]
            ++ if anchored then [Re.Eos] else []).

(** Reading an audio duration marker from left to right: the digits and the
    letter that follows them. *)
Definition read_audio_marker (s : pystr) : option pystr :=
  '(d, s1) ← read_run is_digit 1 None s;
  match s1 with
  | c :: _ => if Ascii.eqb (lower_char c) "s" then Some (d ++ [c]) else None
  | [] => None
  end.

(** The suffixes of a string, longest first. *)
Fixpoint tails (s : pystr) : list pystr :=
  match s with
  | [] => [[]]
  | _ :: t => s :: tails t
  end.

(** [read] finds nothing at a position inside [pre], in [pre ++ suf]. *)
Definition none_before {A} (read : pystr -> option A) (pre suf : pystr)
  : bool :=
  forallb (fun p2 => match p2 with
                     | [] => true
                     | _ :: _ => match read (p2 ++ suf) with
                                 | None => true
                                 | Some _ => false
                                 end
                     end)
          (tails pre).

(** [read] finds nothing at any position of [s]. *)
Definition none_anywhere {A} (read : pystr -> option A) (s : pystr) : bool :=
  forallb (fun p2 => match read p2 with None => true | Some _ => false end)
          (tails s).

(** In [pre ++ suf], no structured segment begins inside [pre]: a segment at
    the front of [suf] is the leftmost one. *)
Definition leftmost_structured (pre suf : pystr) : Prop :=
  forall p1 p2 lang,
    pre = p1 ++ p2 -> p2 <> [] -> ~ structured_at lang (p2 ++ suf).

(** In [pre ++ suf], no audio duration marker begins inside [pre]. *)
Definition leftmost_audio_marker (pre suf : pystr) : Prop :=
  forall p1 p2, pre = p1 ++ p2 -> p2 <> [] -> ~ audio_marker_at (p2 ++ suf).

End Shape.

(** ** Sample inputs *)

Module Samples.
Import Py Fs.

Definition work : path := [str "work"].
Definition sample_video : path :=
  [str "work"; str "EN"; str "clip_30s_en_1080x1920.mp4"].
Definition sample_audio : path := [str "work"; str "voice_30s.wav"].
Definition sample_backup : path :=
  [str "work"; str "backup"; str "EN"; str "clip_30s_en_1080x1920.mp4"].

Definition original_bytes : bytes := [Byte.x00; Byte.x01].
Definition second_bytes : bytes := [Byte.x00; Byte.x02].
Definition encoded_bytes : bytes := [Byte.x00; Byte.x03].

(** Only the video exists. *)
Definition fs_fresh : FS := {[ sample_video := original_bytes ]}.

(** The video has been replaced once before. *)
Definition fs_backed_up : FS :=
  <[ sample_backup := original_bytes ]> {[ sample_video := second_bytes ]}.

(** Every operation succeeds. *)
Definition env_ok : Replace.env :=
  {| Replace.tmp_random := str "k3x9q2ab";
     Replace.tmp_fails := false;
     Replace.encoder := Replace.EncodeOk encoded_bytes;
     Replace.mkdir_fails := false;
     Replace.unlink_fails := false;
     Replace.backup_move_fails := false;
     Replace.commit_move_fails := false;
     Replace.cleanup_fails := false |}.

(** The encoder exits with a non-zero code and leaves a partial file. *)
Definition env_encoder_fails : Replace.env :=
  {| Replace.tmp_random := str "k3x9q2ab";
     Replace.tmp_fails := false;
     Replace.encoder := Replace.EncodeExit (Some [Byte.x00]);
     Replace.mkdir_fails := false;
     Replace.unlink_fails := false;
     Replace.backup_move_fails := false;
     Replace.commit_move_fails := false;
     Replace.cleanup_fails := false |}.

(** The move of the temporary file onto the video path fails. *)
Definition env_commit_fails : Replace.env :=
  {| Replace.tmp_random := str "k3x9q2ab";
     Replace.tmp_fails := false;
     Replace.encoder := Replace.EncodeOk encoded_bytes;
     Replace.mkdir_fails := false;
     Replace.unlink_fails := false;
     Replace.backup_move_fails := false;
     Replace.commit_move_fails := true;
     Replace.cleanup_fails := false |}.

(** The encoder exits with a non-zero code and leaves a partial file, and
    the deletion of the temporary file in the handler fails. *)
Definition env_cleanup_fails : Replace.env :=
  {| Replace.tmp_random := str "k3x9q2ab";
     Replace.tmp_fails := false;
     Replace.encoder := Replace.EncodeExit (Some [Byte.x00]);
     Replace.mkdir_fails := false;
     Replace.unlink_fails := false;
     Replace.backup_move_fails := false;
     Replace.commit_move_fails := false;
     Replace.cleanup_fails := true |}.

(** File names. *)
Definition name_prefix_only : pystr := str "fr_clip.mp4".
Definition name_structured : pystr := str "fr_clip_30s_de_1920x1080.mp4".
Definition name_structured_inside : pystr :=
  str "fr_clip_30s_de_1920x1080_v2.mp4".
Definition name_three_letters : pystr := str "clip_30s_eng_1920x1080.mp4".
Definition name_audio_s : pystr := str "voice_45s.wav".
Definition name_audio_sec : pystr := str "voice_45SEC.wav".
Definition name_two_segments : pystr := str "x_1s_de_2x3_4s_fr_5x6.mp4".
Definition name_audio_inner : pystr := str "v_145s.wav".
Definition name_audio_second : pystr := str "take2s_45sec.wav".

(** The three cases of the matching policy. *)
Definition in_work (n : string) : path := [str "work"; str n].
Definition in_en (n : string) : path := [str "work"; str "EN"; str n].

Definition case1_audios : list path := [in_work "x.wav"; in_work "y.wav"].
Definition case1_videos : list path := [in_en "v1.mp4"; in_en "v2_30s.mp4"].

Definition case2_audios : list path := [in_work "n_30s.wav"].
Definition case2_videos : list path :=
  [in_en "a_30s.mp4"; in_en "b_30s.mp4"; in_en "c.mp4"; in_en "d_45s.mp4"].

Definition case3_audios : list path :=
  [in_work "a_30s.wav"; in_work "b_45s.wav"].
Definition case3_videos : list path := [in_en "v1_30s.mp4"; in_en "v2_60s.mp4"].

(** A directory in which [a.mp4] and [a_1.mp4] exist. *)
Definition fs_duplicates : FS :=
  <[ in_work "a_1.mp4" := [Byte.x01] ]> {[ in_work "a.mp4" := [Byte.x00] ]}.

(** A run of the rename mode over one ordinary file and one work in
    progress; every file is readable and no operation fails. *)
Definition rename_env : Rename.env :=
  {| Rename.metadata := fun _ => Some (str "1080x1920", 30);
     Rename.rename_fails := fun _ _ => false;
     Rename.mkdir_fails := fun _ => false |}.

Definition ordinary_file : path := in_work "fr_intro.mp4".
Definition wip_file : path := in_work "clip_WiP_draft.mp4".

Definition fs_rename : FS :=
  <[ wip_file := [Byte.x07] ]> {[ ordinary_file := [Byte.x00] ]}.

End Samples.

(** ** Drag and drop mode *)

Module DragDrop.
Import Py Fs.
Local Open Scope path_scope.
Local Open Scope fs_scope.

(** The environment of a run: the encoder's outcome for the video processed
    at each position, and whether creating the [sound] folder fails. *)
Record env : Type := {
  encoder : nat -> Replace.encoder_outcome;
  mkdir_fails : bool
}.

(** The loop over the dragged paths: one step, on the two lists built so
    far. *)
Definition classify_one (fs : FS) (acc : list path * list path)
           (file_path : path) : list path * list path :=
  let (audio_files, video_files) := acc in
  match fs !! file_path with
  | None => acc
  | Some _ =>
      if decide (lower (suffix (name file_path)) = str ".wav")
      then (audio_files ++ [file_path], video_files)
      else if decide (lower (suffix (name file_path)) = str ".mp4")
           then (audio_files, video_files ++ [file_path])
           else acc
  end.

Definition classify (fs : FS) (files : list path) : list path * list path :=
  fold_left (classify_one fs) files ([], []).

(** [subprocess.run(['ffmpeg', ..., '-y', str(output_path)], check=True)] *)
Definition ffmpeg_to (o : Replace.encoder_outcome) (output_path : path)
  : M unit :=
  fun fs =>
    match o with
    | Replace.EncodeOk output => (Ok tt, <[output_path := output]> fs)
    | Replace.EncodeExit (Some partial) =>
        (Err CalledProcessError, <[output_path := partial]> fs)
    | Replace.EncodeExit None => (Err CalledProcessError, delete output_path fs)
    | Replace.EncodeNotFound => (Err OSError, fs)
    end.

(** [for video_file in video_files]: only [CalledProcessError] is caught. *)
Fixpoint convert_all (e : env) (i : nat) (sound_dir : path)
         (video_files : list path) (processed_count : nat) (fs : FS)
  : Replace.mode_result * FS :=
  match video_files with
  | [] => (Replace.Finished processed_count, fs)
  | video_file :: rest =>
      let output_path := sound_dir / name video_file in
      let output_path := Resolver.handle_duplicate_names fs output_path in
      match ffmpeg_to (encoder e i) output_path fs with
      | (Ok _, fs') =>
          convert_all e (S i) sound_dir rest (processed_count + 1) fs'
      | (Err CalledProcessError, fs') =>
          convert_all e (S i) sound_dir rest processed_count fs'
      | (Err OSError, fs') => (Replace.Crashed, fs')
      end
  end.

Definition drag_drop_mode (ffmpeg_found : bool) (e : env) (files : list path)
           (fs : FS) : Replace.mode_result * FS :=
  if negb ffmpeg_found then (Replace.Stopped, fs)
  else
    let (audio_files, video_files) := classify fs files in
    match audio_files, video_files with
    | [audio_file], _ :: _ =>
        let sound_dir := parent audio_file / str "sound" in
        match mkdir (mkdir_fails e) sound_dir fs with
        | (Err _, fs') => (Replace.Crashed, fs')
        | (Ok _, fs') => convert_all e 0 sound_dir video_files 0 fs'
        end
    | _, _ => (Replace.Stopped, fs)
    end.

End DragDrop.

(** ** More shapes of file names *)

Module Markers.
Import Py Shape.

(** A string of lower-case ASCII letters. *)
Definition lowercase (s : pystr) : Prop :=
  Forall (fun c => in_range "a" "z" c = true) s.

(** [s] begins with two ASCII letters followed by an underscore. *)
Definition prefixed_by (a b : ascii) (s : pystr) : Prop :=
  exists rest, s = a :: b :: "_" :: rest
               /\ is_alpha a = true /\ is_alpha b = true.

(** Reading the two-letter prefix from left to right. *)
Definition read_prefix (s : pystr) : option pystr :=
  '(l, s1) ← read_run is_alpha 2 (Some 2) s;
  _ ← expect "_" s1;
  Some l.

(** [s] begins with digits followed by a lower-case [s]. *)
Definition video_marker_at (s : pystr) : Prop :=
  exists d rest, s = d ++ "s" :: rest /\ digits d.

(** Reading a video duration marker from left to right. *)
Definition read_video_marker (s : pystr) : option pystr :=
  '(d, s1) ← read_run is_digit 1 None s;
  _ ← expect "s" s1;
  Some (d ++ str "s").

(** In [pre ++ suf], no video duration marker begins inside [pre]. *)
Definition leftmost_video_marker (pre suf : pystr) : Prop :=
  forall p1 p2, pre = p1 ++ p2 -> p2 <> [] -> ~ video_marker_at (p2 ++ suf).

End Markers.

(** ** More sample inputs *)

Module MoreSamples.
Import Py Fs Samples.

(** Dragged files: one audio file, two videos, one missing path and one
    file of another kind. *)
Definition dragged_audio : path := in_work "voice.WAV".
Definition dragged_video1 : path := in_work "one.mp4".
Definition dragged_video2 : path := in_work "two.MP4".
Definition dragged_text : path := in_work "notes.txt".
Definition dragged_missing : path := in_work "gone.mp4".

Definition fs_dragged : FS :=
  <[ dragged_audio := [Byte.x0a] ]>
  (<[ dragged_video1 := [Byte.x01] ]>
   (<[ dragged_video2 := [Byte.x02] ]>
    {[ dragged_text := [Byte.x03] ]})).

(** The encoder succeeds on the first video and fails on the second. *)
Definition drag_env : DragDrop.env :=
  {| DragDrop.encoder :=
       fun i => match i with
                | O => Replace.EncodeOk encoded_bytes
                | _ => Replace.EncodeExit (Some [Byte.x00])
                end;
     DragDrop.mkdir_fails := false |}.

(** The encoder succeeds on every video. *)
Definition drag_env_ok : DragDrop.env :=
  {| DragDrop.encoder := fun _ => Replace.EncodeOk encoded_bytes;
     DragDrop.mkdir_fails := false |}.

(** Environments of the merge mode: every call succeeds, under a temporary
    name that depends on the call. *)
Definition envs_ok (i : nat) : Replace.env :=
  {| Replace.tmp_random := fmt_int i;
     Replace.tmp_fails := false;
     Replace.encoder := Replace.EncodeOk encoded_bytes;
     Replace.mkdir_fails := false;
     Replace.unlink_fails := false;
     Replace.backup_move_fails := false;
     Replace.commit_move_fails := false;
     Replace.cleanup_fails := false |}.

(** Every operation of a call is refused. *)
Definition env_all_fail : Replace.env :=
  {| Replace.tmp_random := str "k3x9q2ab";
     Replace.tmp_fails := false;
     Replace.encoder := Replace.EncodeOk encoded_bytes;
     Replace.mkdir_fails := false;
     Replace.unlink_fails := false;
     Replace.backup_move_fails := false;
     Replace.commit_move_fails := true;
     Replace.cleanup_fails := true |}.

(** Two files of the rename mode, the second of which cannot be read. *)
Definition readable_file : path := in_work "fr_intro.mp4".
Definition unreadable_file : path := in_work "broken.mp4".

Definition fs_two_files : FS :=
  <[ unreadable_file := [Byte.x09] ]> {[ readable_file := [Byte.x00] ]}.

Definition env_one_unreadable : Rename.env :=
  {| Rename.metadata :=
       fun p => if decide (p = unreadable_file) then None
                else Some (str "1080x1920", 30);
     Rename.rename_fails := fun _ _ => false;
     Rename.mkdir_fails := fun _ => false |}.

End MoreSamples.

(** * Properties *)

Import Py Fs.

(** ** The matching policy *)

Section MatchingFacts.
Import Matching.

Lemma cross_nil_r (audio_files : list path) : cross audio_files [] = [].
Proof. induction audio_files as [|a l IH]; simpl; auto. Qed.

Lemma in_cross (audio_files video_files : list path) (v a : path) :
  In (v, a) (cross audio_files video_files) <->
  In a audio_files /\ In v video_files.
Proof.
  unfold cross. rewrite in_flat_map. split.
  - intros (a' & Ha & Hin). apply in_map_iff in Hin as (v' & Heq & Hv).
    inversion Heq; subst. auto.
  - intros [Ha Hv]. exists a. split; [assumption|].
    apply in_map_iff. exists v. auto.
Qed.

Lemma length_cross (audio_files video_files : list path) :
  length (cross audio_files video_files)
  = length audio_files * length video_files.
Proof.
  induction audio_files as [|a l IH]; simpl; [reflexivity|].
  rewrite length_app, length_map, IH. reflexivity.
Qed.


Lemma dict_get_default_nil (k : option pystr) : dict_get_default [] k = [].
Proof. reflexivity. Qed.

(** A key is among the concrete keys exactly when it has a group. *)
Lemma in_concrete_keys (d : dict) (k : pystr) :
  In k (concrete_keys d) <-> is_Some (dict_get d (Some k)).
Proof.
  unfold concrete_keys, keys.
  induction d as [|[k' l] d IH]; simpl.
  - split; [intros []|intros [x Hx]; discriminate].
  - destruct (decide (Some k = k')) as [<-|Hne]; simpl.
    + split; [eauto|auto].
    + destruct k' as [k'|]; simpl.
      * rewrite <- IH. split; [intros [->|H]; [congruence|exact H]|auto].
      * exact IH.
Qed.



(** A non-empty dictionary with distinct keys, all of them the sentinel. *)
Lemma sentinel_only_group (d : dict) :
  d <> [] -> NoDup (keys d) -> (forall k, In k (keys d) -> k = None) ->
  exists l, d = [(None, l)].
Proof.
  intros Hne Hnd Hall.
  destruct d as [|[k1 l1] d]; [congruence|].
  assert (k1 = None) as -> by (apply Hall; left; reflexivity).
  destruct d as [|[k2 l2] d]; [eauto|].
  assert (k2 = None) as -> by (apply Hall; right; left; reflexivity).
  exfalso. simpl in Hnd. apply NoDup_cons in Hnd as [Hnotin _].
  apply Hnotin. left.
Qed.

Lemma mapM_total {A B} (f : A -> option B) (g : A -> B) (l : list A) :
  (forall x, In x l -> f x = Some (g x)) -> mapM f l = Some (map g l).
Proof.
  intros H. apply mapM_Some. induction l as [|x l IH]; simpl; constructor.
  - apply H. left. reflexivity.
  - apply IH. intros y Hy. apply H. right. exact Hy.
Qed.

Lemma flat_map_all_nil {A B} (f : A -> list B) (l : list A) :
  (forall x, f x = []) -> flat_map f l = [].
Proof. intros H. induction l as [|x l IH]; simpl; [|rewrite H, IH]; auto. Qed.

Lemma keys_dict_append (d : dict) (k : option pystr) (x : path) :
  keys (dict_append d k x) = if dict_mem d k then keys d else keys d ++ [k].
Proof.
  unfold dict_mem, keys. induction d as [|[k' l] d IH]; simpl; [reflexivity|].
  destruct (decide (k = k')); simpl; [reflexivity|].
  rewrite IH. destruct (dict_get d k); reflexivity.
Qed.

Lemma dict_mem_false (d : dict) (k : option pystr) :
  dict_mem d k = false -> ~ In k (keys d).
Proof.
  unfold dict_mem, keys. induction d as [|[k' l] d IH]; simpl; [auto|].
  destruct (decide (k = k')); [discriminate|].
  intros H [E|E]; [congruence|]. exact (IH H E).
Qed.

(** The dictionaries built by the grouping loops have distinct keys. *)
Lemma group_by_duration_nodup
      (extract : pystr -> option pystr) (files : list path) :
  NoDup (keys (group_by_duration extract files)).
Proof.
  unfold group_by_duration.
  assert (H : forall d, NoDup (keys d) ->
              NoDup (keys (fold_left
                             (fun d f => dict_append d (extract (name f)) f)
                             files d))).
  { induction files as [|f files IH]; intros d Hd; simpl; [exact Hd|].
    apply IH. rewrite keys_dict_append.
    destruct (dict_mem d (extract (name f))) eqn:E; [exact Hd|].
    apply NoDup_app. split; [exact Hd|]. split; [|apply NoDup_singleton].
    intros k Hk Hin. apply list_elem_of_singleton in Hin. subst k.
    apply (dict_mem_false _ _ E). apply list_elem_of_In. exact Hk. }
  apply H. constructor.
Qed.

End MatchingFacts.

Section MatchingClaims.
Import Matching.

(** C5. When the audio dictionary is non-empty and the sentinel is its only
    key, every audio file is paired with every video file of every video
    group: the pairs are the cross product of all audio files with all
    video files, and there are |audios| * |videos| of them. *)
Theorem no_marker_audios_pair_with_all_videos
        (audio_by_duration video_by_duration : dict) :
  audio_by_duration <> [] ->
  NoDup (keys audio_by_duration) ->
  (forall k, In k (keys audio_by_duration) -> k = None) ->
  let audios := concat (values audio_by_duration) in
  let videos := concat (values video_by_duration) in
  exists pairs,
    merge_pairs audio_by_duration video_by_duration = Some pairs
    /\ pairs = cross audios videos
    /\ length pairs = length audios * length videos
    /\ (forall a v, In a audios -> In v videos -> In (v, a) pairs).
Proof.
  intros Hne Hnd Hall audios videos.
  destruct (sentinel_only_group _ Hne Hnd Hall) as [afs ->].
  subst audios videos. simpl. rewrite app_nil_r.
  exists (cross afs (concat (values video_by_duration))).
  split; [|split; [reflexivity|split]].
  - destruct video_by_duration as [|g V]; [|reflexivity].
    simpl. rewrite cross_nil_r. reflexivity.
  - apply length_cross.
  - intros a v Ha Hv. apply in_cross. auto.
Qed.


(** C4. In every other case with a concrete audio marker (several concrete
    markers, or concrete markers together with the sentinel), each concrete
    audio group is paired with the video group of the identical marker
    only, by a full cross product; a marker without counterpart gives no
    pair, and no error is raised. *)
Theorem strict_matching_pairs
        (audio_by_duration video_by_duration : dict) :
  concrete_keys audio_by_duration <> [] ->
  ~ (length (concrete_keys audio_by_duration) = 1
     /\ dict_mem audio_by_duration None = false) ->
  let pairs :=
    flat_map (fun duration =>
                cross (dict_get_default audio_by_duration (Some duration))
                      (dict_get_default video_by_duration (Some duration)))
             (concrete_keys audio_by_duration) in
  merge_pairs audio_by_duration video_by_duration = Some pairs
  /\ (forall v a,
         In (v, a) pairs <->
         exists duration audio_files video_files,
           dict_get audio_by_duration (Some duration) = Some audio_files
           /\ dict_get video_by_duration (Some duration) = Some video_files
           /\ In a audio_files /\ In v video_files).
Proof.
  intros Hne Htier pairs. split.
  - subst pairs.
    destruct audio_by_duration as [|ga A]; [exfalso; apply Hne; reflexivity|].
    destruct video_by_duration as [|gv V].
    + simpl merge_pairs. f_equal. symmetry. apply flat_map_all_nil.
      intros d. rewrite dict_get_default_nil. apply cross_nil_r.
    + unfold merge_pairs.
      destruct (length (concrete_keys (ga :: A)) =? 0) eqn:E0.
      { apply Nat.eqb_eq in E0. apply length_zero_iff_nil in E0.
        contradiction. }
      destruct ((length (concrete_keys (ga :: A)) =? 1)
                && negb (dict_mem (ga :: A) None)) eqn:E1.
      { apply andb_true_iff in E1 as [E1 E2]. apply Nat.eqb_eq in E1.
        apply negb_true_iff in E2. exfalso. apply Htier. auto. }
      rewrite (mapM_total _
                 (fun duration =>
                    cross (dict_get_default (ga :: A) (Some duration))
                          (dict_get_default (gv :: V) (Some duration)))).
      * cbn [mbind option_bind]. rewrite <- flat_map_concat_map. reflexivity.
      * intros d Hd. apply in_concrete_keys in Hd as [l Hl].
        unfold dict_get_default. rewrite Hl. reflexivity.

  - intros v a. subst pairs. rewrite in_flat_map. split.
    + intros (d & Hd & Hin). apply in_cross in Hin as [Ha Hv].
      apply in_concrete_keys in Hd as [afs Hafs].
      unfold dict_get_default in Ha, Hv. rewrite Hafs in Ha. simpl in Ha.
      destruct (dict_get video_by_duration (Some d)) as [vs|] eqn:Hvs;
        [|destruct Hv].
      exists d, afs, vs. auto.
    + intros (d & afs & vs & Hafs & Hvs & Ha & Hv). exists d. split.
      * apply in_concrete_keys. eauto.
      * apply in_cross. unfold dict_get_default. rewrite Hafs, Hvs. auto.
Qed.

End MatchingClaims.

(** ** Duplicate names *)

Section ResolverFacts.
Import Resolver.

Lemma str_inj (s t : string) : str s = str t -> s = t.
Proof.
  unfold str. intros H.
  rewrite <- (string_of_list_ascii_of_string s),
          <- (string_of_list_ascii_of_string t), H.
  reflexivity.
Qed.

Lemma fmt_int_inj (m n : nat) : fmt_int m = fmt_int n -> m = n.
Proof.
  unfold fmt_int. intros H. apply str_inj in H.
  apply DecimalNat.Unsigned.to_uint_inj.
  assert (Some (Nat.to_uint m) = Some (Nat.to_uint n)) as E.
  { rewrite <- !NilEmpty.usu, H. reflexivity. }
  congruence.
Qed.

Lemma join_cons (p : path) (c : ascii) (n : pystr) :
  join p (c :: n) = p ++ [c :: n].
Proof. reflexivity. Qed.

Lemma join_app_cons (p : path) (a : pystr) (c : ascii) (b : pystr) :
  join p (a ++ c :: b) = p ++ [a ++ c :: b].
Proof. destruct a; reflexivity. Qed.

Lemma parent_join (p : path) (n : pystr) : n <> [] -> parent (join p n) = p.
Proof.
  destruct n as [|c n]; [congruence|]. intros _. rewrite join_cons.
  unfold parent. apply removelast_last.
Qed.

Lemma name_join (p : path) (n : pystr) : n <> [] -> name (join p n) = n.
Proof.
  destruct n as [|c n]; [congruence|]. intros _. rewrite join_cons.
  unfold name. apply last_last.
Qed.

Lemma candidate_eq (target_path : path) (counter : nat) :
  candidate target_path counter
  = parent target_path
      ++ [stem (name target_path) ++ "_" :: fmt_int counter
               ++ suffix (name target_path)].
Proof. unfold candidate. cbv zeta. apply join_app_cons. Qed.

Lemma candidate_inj (target_path : path) : Inj (=) (=) (candidate target_path).
Proof.
  intros m n H. rewrite !candidate_eq in H.
  apply app_inv_head in H. injection H as H.
  apply app_inv_head in H. injection H as H.
  apply app_inv_tail in H. apply fmt_int_inj. exact H.
Qed.

(** Among the first [size fs + 1] candidates one is free. *)
Lemma free_candidate (fs : FS) (target_path : path) :
  exists k, 1 <= k < 1 + S (size fs) /\ fs !! candidate target_path k = None.
Proof.
  set (l := candidate target_path <$> seq 1 (S (size fs))).
  destruct (decide (Forall (fun p => is_Some (fs !! p)) l)) as [Hall|Hex].
  - exfalso.
    assert (Hnd : NoDup l).
    { pose proof (candidate_inj target_path) as Hinj.
      apply (NoDup_fmap_2 (candidate target_path)), NoDup_seq. }
    assert (Hsub : (list_to_set l : gset path) ⊆ dom fs).
    { intros p Hp. apply elem_of_list_to_set in Hp. apply elem_of_dom.
      rewrite Forall_forall in Hall. apply Hall. exact Hp. }
    apply subseteq_size in Hsub.
    rewrite size_list_to_set in Hsub by exact Hnd.
    rewrite size_dom in Hsub. unfold l in Hsub.
    rewrite length_fmap, length_seq in Hsub. lia.
  - apply not_Forall_Exists in Hex; [|intros p; apply _].
    apply Exists_exists in Hex as (p & Hp & Hfree).
    apply list_elem_of_fmap in Hp as (k & -> & Hk).
    apply elem_of_seq in Hk. exists k. split; [lia|].
    simpl in Hfree. destruct (fs !! candidate target_path k); [|reflexivity].
    exfalso. apply Hfree. eauto.
Qed.

(** The loop returns the first free candidate from [counter] on, provided
    one lies within the fuel. *)
Lemma probe_first_free (fs : FS) (target_path : path) (fuel counter : nat) :
  (exists k, counter <= k < counter + fuel
             /\ fs !! candidate target_path k = None) ->
  exists k, counter <= k
            /\ probe fs target_path fuel counter
               = Some (candidate target_path k)
            /\ fs !! candidate target_path k = None
            /\ (forall j, counter <= j < k ->
                          is_Some (fs !! candidate target_path j)).
Proof.
  revert counter. induction fuel as [|fuel IH]; intros counter (k & Hk & Hfree).
  - lia.
  - simpl. destruct (fs !! candidate target_path counter) as [c|] eqn:Hc.
    + destruct (IH (S counter)) as (k' & Hk' & Hp & Hf & Hmin).
      { exists k. split; [|exact Hfree].
        destruct (Nat.eq_dec k counter) as [->|]; [congruence|lia]. }
      exists k'. split; [lia|]. split; [exact Hp|]. split; [exact Hf|].
      intros j Hj. destruct (Nat.eq_dec j counter) as [->|]; [eauto|].
      apply Hmin. lia.
    + exists counter. split; [lia|]. split; [reflexivity|].
      split; [exact Hc|]. intros j Hj. lia.
Qed.

(** The loop of [handle_duplicate_names] terminates. *)
Lemma probe_terminates (fs : FS) (target_path : path) :
  exists k, 1 <= k
            /\ probe fs target_path (S (size fs)) 1
               = Some (candidate target_path k)
            /\ fs !! candidate target_path k = None
            /\ (forall j, 1 <= j < k ->
                          is_Some (fs !! candidate target_path j)).
Proof. apply probe_first_free, free_candidate. Qed.

(** The resolved path is free. *)
Lemma handle_duplicate_names_free (fs : FS) (target_path : path) :
  fs !! handle_duplicate_names fs target_path = None.
Proof.
  unfold handle_duplicate_names.
  destruct (fs !! target_path) eqn:Ht; [|exact Ht].
  destruct (probe_terminates fs target_path) as (k & _ & -> & Hfree & _).
  exact Hfree.
Qed.

End ResolverFacts.

(** C8. The resolver returns the target unchanged when nothing exists there;
    otherwise its loop terminates and it returns the candidate
    [base_k.ext] with the smallest [k >= 1] that does not exist, every
    smaller candidate being taken.  With [a.mp4] and [a_1.mp4] present and
    [a_2.mp4] absent, the result is [a_2.mp4]. *)
Theorem handle_duplicate_names_first_free (fs : FS) (target_path : path) :
  (fs !! target_path = None ->
   Resolver.handle_duplicate_names fs target_path = target_path)
  /\ (is_Some (fs !! target_path) ->
      exists k,
        1 <= k
        /\ Resolver.probe fs target_path (S (size fs)) 1
           = Some (Resolver.candidate target_path k)
        /\ Resolver.handle_duplicate_names fs target_path
           = Resolver.candidate target_path k
        /\ Resolver.candidate target_path k
           = (parent target_path
              / (stem (name target_path) ++ str "_" ++ fmt_int k
                      ++ suffix (name target_path)))%path
        /\ fs !! Resolver.candidate target_path k = None
        /\ (forall j, 1 <= j < k ->
                      is_Some (fs !! Resolver.candidate target_path j)))
  /\ (forall d : path,
         is_Some (fs !! (d / str "a.mp4")%path) ->
         is_Some (fs !! (d / str "a_1.mp4")%path) ->
         fs !! (d / str "a_2.mp4")%path = None ->
         Resolver.handle_duplicate_names fs (d / str "a.mp4")%path
         = (d / str "a_2.mp4")%path).
Proof.
  split; [|split].
  - intros Hnone. unfold Resolver.handle_duplicate_names. rewrite Hnone.
    reflexivity.
  - intros [c Hc].
    destruct (probe_terminates fs target_path) as (k & Hk & Hp & Hfree & Hmin).
    exists k. unfold Resolver.handle_duplicate_names. rewrite Hc, Hp.
    repeat split; auto; lia.
  - intros d [c0 H0] [c1 H1] H2.
    unfold Resolver.handle_duplicate_names. rewrite H0.
    assert (E1 : Resolver.candidate (d / str "a.mp4")%path 1
                 = (d / str "a_1.mp4")%path).
    { unfold Resolver.candidate.
      rewrite parent_join, name_join by discriminate. reflexivity. }
    assert (E2 : Resolver.candidate (d / str "a.mp4")%path 2
                 = (d / str "a_2.mp4")%path).
    { unfold Resolver.candidate.
      rewrite parent_join, name_join by discriminate. reflexivity. }
    cbn [Resolver.probe]. rewrite E1, H1.
    destruct (size fs) as [|n] eqn:Hsz.
    + apply map_size_empty_iff in Hsz. subst fs. rewrite lookup_empty in H0.
      discriminate.
    + cbn [Resolver.probe]. rewrite E2, H2. reflexivity.
Qed.

(** ** Safe replace *)

Section ReplaceFacts.
Import Replace.

Lemma backups_app (p q : path) : backups (p ++ q) = backups p + backups q.
Proof.
  unfold backups. rewrite List.filter_app, length_app. reflexivity.
Qed.

Lemma backups_join (p : path) (n : pystr) :
  backups (join p n) = backups p + is_backup n.
Proof.
  destruct n as [|c n].
  - simpl. unfold is_backup.
    rewrite bool_decide_eq_false_2 by discriminate. lia.
  - rewrite join_cons, backups_app. f_equal. unfold backups, is_backup. simpl.
    destruct (bool_decide _); reflexivity.
Qed.

Lemma backups_parent_name (p : path) :
  backups p = backups (parent p) + is_backup (name p).
Proof.
  destruct p as [|x p] using rev_ind.
  - reflexivity.
  - unfold parent, name. rewrite removelast_last, last_last, backups_app.
    f_equal. unfold backups, is_backup. simpl.
    destruct (bool_decide _); reflexivity.
Qed.

Lemma backups_backup_path (video_path : path) :
  backups (backup_path_of video_path) = S (backups video_path).
Proof.
  unfold backup_path_of, backup_lang_dir. cbv zeta. rewrite !backups_join.
  rewrite (backups_parent_name video_path),
    (backups_parent_name (parent video_path)).
  change (is_backup (str "backup")) with 1. lia.
Qed.

Lemma backups_temp_path (e : env) (video_path : path) :
  backups (temp_path_of e video_path) = backups (parent video_path).
Proof.
  unfold temp_path_of. rewrite backups_join. unfold is_backup, tmp_name.
  rewrite bool_decide_eq_false_2 by discriminate. lia.
Qed.

Lemma backup_path_ne_video (video_path : path) :
  backup_path_of video_path <> video_path.
Proof.
  intros E. pose proof (backups_backup_path video_path) as H.
  rewrite E in H. lia.
Qed.

Lemma temp_path_ne_backup (e : env) (video_path : path) :
  temp_path_of e video_path <> backup_path_of video_path.
Proof.
  intros E. pose proof (backups_backup_path video_path) as H.
  rewrite <- E in H.
  rewrite backups_temp_path, (backups_parent_name video_path) in H. lia.
Qed.

Lemma handler_spec (e : env) (tp : path) (fs : FS) (o : outcome) (fs' : FS) :
  handler e (Some tp) fs = (o, fs') ->
  (forall q, q <> tp -> fs' !! q = fs !! q)
  /\ ((o = Returned false /\ fs' !! tp = None)
      \/ (o = Raised /\ cleanup_fails e = true /\ fs' = fs)).
Proof.
  unfold handler, exists_, unlink.
  destruct (fs !! tp) eqn:Htp.
  - destruct (cleanup_fails e).
    + intros [= <- <-]. split; [reflexivity|]. right. auto.
    + intros [= <- <-]. split.
      * intros q Hq. apply lookup_delete_ne. congruence.
      * left. split; [reflexivity|apply lookup_delete_eq].
  - intros [= <- <-]. split; [reflexivity|]. left. auto.
Qed.

Local Ltac leaf :=
  cbv zeta; repeat split; intros; simplify_map_eq; eauto; try congruence.

Local Ltac same_fs := intros [= <- <-]; leaf.

Local Ltac use_frame Hfr :=
  repeat match goal with
         | |- context [?m !! ?q] =>
             lazymatch type of Hfr with
             | forall q', _ -> m !! q' = _ => rewrite (Hfr q) by congruence
             end
         end.

Local Ltac failed :=
  let H := fresh "H" in
  let Hfr := fresh "Hfr" in
  intros H; apply handler_spec in H as (Hfr & [[-> Hgone]|(-> & Hcl & ->)]);
  cbv zeta;
  (repeat split; intros; try use_frame Hfr; simplify_map_eq; eauto;
   try congruence).

(** What one call does to the video, the backup and the temporary file, by
    cases on the environment. *)
Lemma merge_spec (e : env) (v a : path) (fs : FS) (o : outcome) (fs' : FS) :
  merge_audio_video e v a fs = (o, fs') ->
  let tp := temp_path_of e v in
  let bp := backup_path_of v in
  (forall b, fs !! bp = Some b -> fs' !! bp = Some b)
  /\ (o = Returned true ->
      exists out, encoder e = EncodeOk out /\ fs' !! v = Some out
                  /\ fs' !! tp = None)
  /\ (o = Returned true -> fs !! bp = None ->
      exists orig, fs !! v = Some orig /\ fs' !! bp = Some orig)
  /\ (forall orig, fs !! bp = None -> fs !! v = Some orig ->
      fs' !! bp = Some orig \/ (fs' !! bp = None /\ fs' !! v = Some orig))
  /\ (o <> Returned true -> commit_move_fails e = false ->
      cleanup_fails e = false ->
      o = Returned false /\ fs' !! v = fs !! v
      /\ (fs !! tp = None -> fs' !! tp = None))
  /\ (forall q, q <> tp -> q <> v -> q <> bp -> fs' !! q = fs !! q).
Proof.
  pose proof (backup_path_ne_video v) as Hbv.
  pose proof (temp_path_ne_backup e v) as Htb.
  unfold merge_audio_video, named_temporary_file. cbv zeta.
  change (parent v / tmp_name e)%path with (temp_path_of e v).
  remember (temp_path_of e v) as tp eqn:Etp.
  remember (backup_path_of v) as bp eqn:Ebp.
  destruct (tmp_fails e) eqn:Etf; [same_fs|].
  destruct (fs !! tp) eqn:Htp; [same_fs|].
  unfold merge_body, ffmpeg, create_backup_folder, bind, ret, mkdir, exists_.
  destruct (encoder e) as [out|[partial|]|] eqn:Eenc.
  2-4: destruct (decide (tp = v)) as [->|Ntv]; solve [failed].
  destruct (mkdir_fails e) eqn:Emk;
    [destruct (decide (tp = v)) as [->|Ntv]; solve [failed]|].
  change (backup_lang_dir v / name v)%path with (backup_path_of v).
  rewrite <- Ebp. rewrite lookup_insert_ne, lookup_insert_ne by exact Htb.
  destruct (decide (tp = v)) as [->|Ntv].
  - destruct (fs !! bp) as [b|] eqn:Hb; unfold unlink, move.
    + destruct (unlink_fails e) eqn:Eun; [solve [failed]|].
      rewrite lookup_insert_eq.
      destruct (commit_move_fails e) eqn:Ecm; [solve [failed]|].
      rewrite lookup_delete_eq. solve [failed].
    + destruct (backup_move_fails e) eqn:Ebm; [solve [failed]|].
      rewrite lookup_insert_eq.
      destruct (commit_move_fails e) eqn:Ecm; [solve [failed]|].
      rewrite lookup_insert_ne, lookup_delete_eq by congruence.
      solve [failed].
  - destruct (fs !! bp) as [b|] eqn:Hb; unfold unlink, move.
    + destruct (unlink_fails e) eqn:Eun; [solve [failed]|].
      rewrite !lookup_insert_ne by exact Ntv.
      destruct (fs !! v) as [orig|] eqn:Hv; [|solve [failed]].
      destruct (commit_move_fails e) eqn:Ecm; [solve [failed]|].
      rewrite lookup_delete_ne, lookup_insert_eq by congruence.
      intros [= <- <-]. solve [leaf].
    + destruct (backup_move_fails e) eqn:Ebm; [solve [failed]|].
      rewrite !lookup_insert_ne by exact Ntv.
      destruct (fs !! v) as [orig|] eqn:Hv; [|solve [failed]].
      destruct (commit_move_fails e) eqn:Ecm; [solve [failed]|].
      rewrite lookup_insert_ne, lookup_delete_ne, lookup_insert_eq
        by congruence.
      intros [= <- <-]. solve [leaf].
Qed.

Local Ltac settled :=
  cbv zeta; repeat split; intros; simplify_map_eq; eauto; try congruence.

Local Ltac handled :=
  let H := fresh "H" in
  let Hfr := fresh "Hfr" in
  intros H; apply handler_spec in H as (Hfr & [[-> Hgone]|(-> & Hcl & ->)]);
  cbv zeta;
  (repeat split; intros; try rewrite Hfr by congruence; simplify_map_eq; eauto;
   try congruence).

(** What a call that does not succeed leaves behind, by cases on the
    environment. *)
Lemma merge_failed (e : env) (v a : path) (fs : FS) (o : outcome) (fs' : FS) :
  merge_audio_video e v a fs = (o, fs') ->
  o <> Returned true ->
  let tp := temp_path_of e v in
  (commit_move_fails e = false ->
   forall c, fs !! v = Some c -> fs' !! v = Some c)
  /\ (cleanup_fails e = false ->
      o = Returned false /\ (fs !! tp = None -> fs' !! tp = None)).
Proof.
  pose proof (backup_path_ne_video v) as Hbv.
  pose proof (temp_path_ne_backup e v) as Htb.
  unfold merge_audio_video, named_temporary_file. cbv zeta.
  change (parent v / tmp_name e)%path with (temp_path_of e v).
  remember (temp_path_of e v) as tp eqn:Etp.
  remember (backup_path_of v) as bp eqn:Ebp.
  destruct (tmp_fails e) eqn:Etf; [intros [= <- <-]; solve [settled]|].
  destruct (fs !! tp) eqn:Htp; [intros [= <- <-]; solve [settled]|].
  unfold merge_body, ffmpeg, create_backup_folder, bind, ret, mkdir, exists_.
  destruct (encoder e) as [out|[partial|]|] eqn:Eenc.
  2-4: destruct (decide (tp = v)) as [->|Ntv]; solve [handled].
  destruct (mkdir_fails e) eqn:Emk;
    [destruct (decide (tp = v)) as [->|Ntv]; solve [handled]|].
  change (backup_lang_dir v / name v)%path with (backup_path_of v).
  rewrite <- Ebp. rewrite lookup_insert_ne, lookup_insert_ne by exact Htb.
  destruct (decide (tp = v)) as [->|Ntv].
  - destruct (fs !! bp) as [b|] eqn:Hb; unfold unlink, move.
    + destruct (unlink_fails e) eqn:Eun; [solve [handled]|].
      rewrite lookup_insert_eq.
      destruct (commit_move_fails e) eqn:Ecm; [solve [handled]|].
      rewrite lookup_delete_eq. solve [handled].
    + destruct (backup_move_fails e) eqn:Ebm; [solve [handled]|].
      rewrite lookup_insert_eq.
      destruct (commit_move_fails e) eqn:Ecm; [solve [handled]|].
      rewrite lookup_insert_ne, lookup_delete_eq by congruence.
      solve [handled].
  - destruct (fs !! bp) as [b|] eqn:Hb; unfold unlink, move.
    + destruct (unlink_fails e) eqn:Eun; [solve [handled]|].
      rewrite !lookup_insert_ne by exact Ntv.
      destruct (fs !! v) as [orig|] eqn:Hv; [|solve [handled]].
      destruct (commit_move_fails e) eqn:Ecm; [solve [handled]|].
      rewrite lookup_delete_ne, lookup_insert_eq by congruence.
      intros [= <- <-]. solve [settled].
    + destruct (backup_move_fails e) eqn:Ebm; [solve [handled]|].
      rewrite !lookup_insert_ne by exact Ntv.
      destruct (fs !! v) as [orig|] eqn:Hv; [|solve [handled]].
      destruct (commit_move_fails e) eqn:Ecm; [solve [handled]|].
      rewrite lookup_insert_ne, lookup_delete_ne, lookup_insert_eq
        by congruence.
      intros [= <- <-]. solve [settled].
Qed.

(** An existing backup survives any number of calls. *)
Lemma merge_repeatedly_keeps_backup
      (calls : list (env * path)) (v : path) (fs : FS)
      (os : list outcome) (fs' : FS) (b : bytes) :
  merge_repeatedly calls v fs = (os, fs') ->
  fs !! backup_path_of v = Some b -> fs' !! backup_path_of v = Some b.
Proof.
  revert fs os. induction calls as [|[e a] calls IH]; intros fs os; simpl.
  - intros [= <- <-]. auto.
  - destruct (merge_audio_video e v a fs) as [o fs1] eqn:H1.
    destruct (merge_repeatedly calls v fs1) as [os1 fs2] eqn:H2.
    intros [= <- <-] Hb. apply (IH _ _ H2).
    apply (merge_spec _ _ _ _ _ _ H1). exact Hb.
Qed.

(** From a state without backup, the backup made by any later call holds the
    content the video had in that state. *)
Lemma merge_repeatedly_first_backup
      (calls : list (env * path)) (v : path) (fs : FS)
      (os : list outcome) (fs' : FS) (original : bytes) :
  merge_repeatedly calls v fs = (os, fs') ->
  fs !! backup_path_of v = None -> fs !! v = Some original ->
  (In (Returned true) os -> fs' !! backup_path_of v = Some original)
  /\ (fs' !! backup_path_of v = None
      \/ fs' !! backup_path_of v = Some original).
Proof.
  revert fs os. induction calls as [|[e a] calls IH]; intros fs os; simpl.
  - intros [= <- <-] Hb Hv. split; [intros []|auto].
  - destruct (merge_audio_video e v a fs) as [o fs1] eqn:H1.
    destruct (merge_repeatedly calls v fs1) as [os1 fs2] eqn:H2.
    intros [= <- <-] Hb Hv.
    destruct (merge_spec _ _ _ _ _ _ H1) as (_ & _ & Hok & Hstep & _).
    destruct (Hstep _ Hb Hv) as [Hb1|[Hb1 Hv1]].
    + pose proof (merge_repeatedly_keeps_backup _ _ _ _ _ _ H2 Hb1). auto.
    + destruct (IH _ _ H2 Hb1 Hv1) as [IH1 IH2]. split; [|exact IH2].
      intros [->|Hin]; [|auto].
      destruct (Hok eq_refl Hb) as (orig & Ho1 & Ho2). congruence.
Qed.

End ReplaceFacts.

(** C1. A call of [merge_audio_video] never overwrites a file that exists at
    the backup path: such a file is left as it is and, when the call
    succeeds, the video holds the encoder's output.  Only when there is no
    backup can the backup path receive a file, and that file is the video as
    it was before the call.  Hence, after any number of further calls on the
    same video, an existing backup is still the same, and a backup made from
    a state without one is equal to the content of the video before the first
    successful replacement. *)
Theorem backup_is_created_once
        (e : Replace.env) (video_path audio_path : path) (fs : FS)
        (o : Replace.outcome) (fs' : FS) :
  Replace.merge_audio_video e video_path audio_path fs = (o, fs') ->
  let backup_path := Replace.backup_path_of video_path in
  (forall b, fs !! backup_path = Some b ->
     fs' !! backup_path = Some b
     /\ (o = Replace.Returned true ->
         exists out, Replace.encoder e = Replace.EncodeOk out
                     /\ fs' !! video_path = Some out))
  /\ (forall original, fs !! backup_path = None ->
        fs !! video_path = Some original ->
        (fs' !! backup_path = None \/ fs' !! backup_path = Some original)
        /\ (o = Replace.Returned true ->
            fs' !! backup_path = Some original
            /\ exists out, Replace.encoder e = Replace.EncodeOk out
                           /\ fs' !! video_path = Some out))
  /\ (forall calls os fs'',
        Replace.merge_repeatedly calls video_path fs' = (os, fs'') ->
        (forall b, fs !! backup_path = Some b -> fs'' !! backup_path = Some b)
        /\ (forall original, fs !! backup_path = None ->
              fs !! video_path = Some original ->
              o = Replace.Returned true \/ In (Replace.Returned true) os ->
              fs'' !! backup_path = Some original)).
Proof.
  intros H backup_path. subst backup_path.
  destruct (merge_spec _ _ _ _ _ _ H) as (Hkeep & Hok & Hfirst & Hstep & _).
  split; [|split].
  - intros b Hb. split; [auto|]. intros Ho.
    destruct (Hok Ho) as (out & Henc & Hv & _). eauto.
  - intros original Hb Hv. split.
    + destruct (Hstep _ Hb Hv) as [Hb1|[Hb1 _]]; auto.
    + intros Ho. destruct (Hfirst Ho Hb) as (orig & Ho1 & Ho2).
      destruct (Hok Ho) as (out & Henc & Hv' & _).
      split; [congruence|eauto].
  - intros calls os fs'' Hrep. split.
    + intros b Hb. apply (merge_repeatedly_keeps_backup _ _ _ _ _ _ Hrep). auto.
    + intros original Hb Hv Hsome.
      destruct (Hstep _ Hb Hv) as [Hb1|[Hb1 Hv1]].
      * apply (merge_repeatedly_keeps_backup _ _ _ _ _ _ Hrep). exact Hb1.
      * destruct Hsome as [Ho|Hin].
        -- destruct (Hfirst Ho Hb) as (orig & Ho1 & Ho2). congruence.
        -- apply (merge_repeatedly_first_backup _ _ _ _ _ _ Hrep Hb1 Hv1).
           exact Hin.
Qed.

(** The claim C2 fails in two ways.  When the final move fails, the call
    returns [False], yet the video path no longer holds the video.  When the
    deletion of the temporary file in the handler fails, the call does not
    return: the exception escapes, the temporary file stays, and the loop
    over the pairs ends before the next pair. *)
Lemma failed_merge_breaks_promises :
  (fst (Replace.merge_audio_video Samples.env_commit_fails
          Samples.sample_video Samples.sample_audio Samples.fs_backed_up)
   = Replace.Returned false
   /\ Samples.fs_backed_up !! Samples.sample_video = Some Samples.second_bytes
   /\ snd (Replace.merge_audio_video Samples.env_commit_fails
             Samples.sample_video Samples.sample_audio Samples.fs_backed_up)
      !! Samples.sample_video = None)
  /\ (fst (Replace.merge_audio_video Samples.env_cleanup_fails
             Samples.sample_video Samples.sample_audio Samples.fs_backed_up)
      = Replace.Raised
      /\ Samples.fs_backed_up
         !! Replace.temp_path_of Samples.env_cleanup_fails Samples.sample_video
         = None
      /\ snd (Replace.merge_audio_video Samples.env_cleanup_fails
                Samples.sample_video Samples.sample_audio Samples.fs_backed_up)
         !! Replace.temp_path_of Samples.env_cleanup_fails Samples.sample_video
         = Some [Byte.x00]
      /\ fst (Replace.merge_all
                (fun i => match i with
                          | O => Samples.env_cleanup_fails
                          | S _ => Samples.env_ok
                          end)
                0
                [(Samples.sample_video, Samples.sample_audio);
                 (Samples.sample_video, Samples.sample_audio)]
                0 Samples.fs_backed_up)
         = Replace.Crashed).
Proof. vm_compute. auto 10. Qed.

(** C2, amended.  When a call does not succeed, an existing backup is
    unchanged, whatever failed.  If the final move of the temporary file onto
    the video path is not refused, the video path holds the content it held
    before.  If the deletion of the temporary file in the handler is not
    refused, the call returns [False], a temporary file that the call created
    is gone, and the loop over the pairs goes on with the next pair. *)
Theorem failed_merge_leaves_video
        (e : Replace.env) (video_path audio_path : path) (fs : FS)
        (o : Replace.outcome) (fs' : FS) :
  Replace.merge_audio_video e video_path audio_path fs = (o, fs') ->
  o <> Replace.Returned true ->
  (forall b, fs !! Replace.backup_path_of video_path = Some b ->
             fs' !! Replace.backup_path_of video_path = Some b)
  /\ (Replace.commit_move_fails e = false ->
      forall content, fs !! video_path = Some content ->
                      fs' !! video_path = Some content)
  /\ (Replace.cleanup_fails e = false ->
      o = Replace.Returned false
      /\ (fs !! Replace.temp_path_of e video_path = None ->
          fs' !! Replace.temp_path_of e video_path = None)
      /\ (forall envs i rest n,
            envs i = e ->
            Replace.merge_all envs i ((video_path, audio_path) :: rest) n fs
            = Replace.merge_all envs (S i) rest n fs')).
Proof.
  intros H Ho.
  destruct (merge_spec _ _ _ _ _ _ H) as (Hkeep & _).
  destruct (merge_failed _ _ _ _ _ _ H Ho) as (Hvideo & Hclean).
  split; [exact Hkeep|]. split; [exact Hvideo|].
  intros Hcl. destruct (Hclean Hcl) as [-> Htp].
  split; [reflexivity|]. split; [exact Htp|].
  intros envs i rest n <-. simpl. rewrite H. reflexivity.
Qed.

(** ** Rename mode *)

Section RenameFacts.
Import Rename.

Lemma move_frame (fault : bool) (src dst : path) (fs : FS)
      (r : res unit) (fs' : FS) (q : path) :
  move fault src dst fs = (r, fs') -> q <> src -> q <> dst ->
  fs' !! q = fs !! q.
Proof.
  unfold move. destruct fault; [intros [= <- <-]; reflexivity|].
  destruct (fs !! src); intros [= <- <-] Hs Hd; [|reflexivity].
  rewrite lookup_insert_ne, lookup_delete_ne by congruence. reflexivity.
Qed.

(** Moving a file to a free path leaves every other existing file alone. *)
Lemma move_to_free_keeps (fault : bool) (src dst : path) (fs : FS)
      (r : res unit) (fs' : FS) (q : path) (c : bytes) :
  move fault src dst fs = (r, fs') -> fs !! dst = None ->
  fs !! q = Some c -> q <> src -> fs' !! q = Some c.
Proof.
  intros Hm Hfree Hq Hs.
  rewrite (move_frame _ _ _ _ _ _ q Hm); [exact Hq|exact Hs|].
  intros ->. congruence.
Qed.

Lemma organize_by_language_keeps
      (e : env) (cwd file_path : path) (lang_code : pystr) (fs : FS)
      (r : res path) (fs' : FS) (q : path) (c : bytes) :
  organize_by_language e cwd file_path lang_code fs = (r, fs') ->
  fs !! q = Some c -> q <> file_path -> fs' !! q = Some c.
Proof.
  unfold organize_by_language, create_language_folder, bind, ret, mkdir.
  destruct (mkdir_fails e _); [intros [= <- <-]; auto|].
  set (target := Resolver.handle_duplicate_names fs _).
  destruct (move _ file_path target fs) as [r1 fs1] eqn:Hm.
  intros Heq Hq Hne.
  assert (fs1 !! q = Some c) as Hq1.
  { eapply move_to_free_keeps; eauto. apply handle_duplicate_names_free. }
  destruct r1; inversion Heq; subst; exact Hq1.
Qed.

Lemma process_file_spec
      (e : env) (cwd : path) (custom_name : pystr) (st : state) (f : path) :
  let st' := process_file e cwd custom_name st f in
  metadata_reads st' = metadata_reads st ++ [f]
  /\ processed_count st' + error_count st'
     = S (processed_count st + error_count st)
  /\ (forall q c, files st !! q = Some c -> q <> f -> files st' !! q = Some c).
Proof.
  unfold process_file.
  destruct (metadata e f) as [[resolution duration]|].
  2: { simpl. repeat split; [lia|auto]. }
  set (np := Resolver.handle_duplicate_names (files st) _).
  unfold bind.
  destruct (move _ f np (files st)) as [r1 fs1] eqn:Hm.
  assert (Hkeep1 : forall q c, files st !! q = Some c -> q <> f ->
                               fs1 !! q = Some c).
  { intros q c Hq Hne. eapply move_to_free_keeps; eauto.
    apply handle_duplicate_names_free. }
  assert (Hnp : files st !! np = None) by apply handle_duplicate_names_free.
  destruct r1 as [[]|ex].
  - destruct (organize_by_language e cwd np _ fs1) as [r2 fs2] eqn:Ho.
    assert (Hkeep2 : forall q c, files st !! q = Some c -> q <> f ->
                                 fs2 !! q = Some c).
    { intros q c Hq Hne. eapply organize_by_language_keeps; eauto.
      intros ->. congruence. }
    destruct r2; simpl; repeat split; auto; lia.
  - simpl. repeat split; auto; lia.
Qed.

Lemma process_files_spec
      (e : env) (cwd : path) (custom_name : pystr) (l : list path)
      (st : state) :
  let st' := fold_left (process_file e cwd custom_name) l st in
  metadata_reads st' = metadata_reads st ++ l
  /\ processed_count st' + error_count st'
     = length l + (processed_count st + error_count st)
  /\ (forall q c, files st !! q = Some c -> ~ In q l ->
                  files st' !! q = Some c).
Proof.
  revert st. induction l as [|f l IH]; intros st; simpl.
  - rewrite app_nil_r. auto.
  - destruct (process_file_spec e cwd custom_name st f) as (Hr & Hc & Hk).
    destruct (IH (process_file e cwd custom_name st f)) as (Hr' & Hc' & Hk').
    split; [|split].
    + rewrite Hr', Hr, <- app_assoc. reflexivity.
    + rewrite Hc', Hc. lia.
    + intros q c Hq Hn. apply Hk'; [apply Hk; auto|]; intuition.
Qed.

Lemma startswith_app (p t : pystr) : startswith p (p ++ t) = true.
Proof.
  induction p as [|a p IH]; simpl; [reflexivity|].
  rewrite Ascii.eqb_refl. exact IH.
Qed.

Lemma contains_app (p s t : pystr) : contains p (s ++ p ++ t) = true.
Proof.
  induction s as [|a s IH].
  - simpl app. destruct (p ++ t) eqn:E; simpl; rewrite <- ?E, startswith_app;
      reflexivity.
  - simpl. rewrite IH. apply orb_true_r.
Qed.

End RenameFacts.

(** C10. In rename mode a file whose name contains [wip], in any mixture of
    upper and lower case, is filtered out before the loop: the metadata
    reader is never called on it, it is at its path with its content after
    the run, and the processed and error counters together count exactly the
    files that are not filtered out. *)
Theorem wip_files_are_skipped
        (e : Rename.env) (cwd : path) (custom_name : pystr)
        (mp4_files : list path) (fs : FS) (st : Rename.state)
        (wip_file : path) (content : bytes)
        (before after : pystr) (w i p : ascii) :
  Rename.video_rename_mode e cwd custom_name mp4_files fs = Some st ->
  name wip_file = before ++ [w; i; p] ++ after ->
  (w = "w" \/ w = "W")%char -> (i = "i" \/ i = "I")%char ->
  (p = "p" \/ p = "P")%char ->
  fs !! wip_file = Some content ->
  Rename.is_wip wip_file = true
  /\ ~ In wip_file (Rename.metadata_reads st)
  /\ Rename.files st !! wip_file = Some content
  /\ Rename.metadata_reads st
     = List.filter (fun f => negb (Rename.is_wip f)) mp4_files
  /\ Rename.processed_count st + Rename.error_count st
     = length (List.filter (fun f => negb (Rename.is_wip f)) mp4_files).
Proof.
  intros Hrun Hname Hw Hi Hp Hfile.
  assert (Hwip : Rename.is_wip wip_file = true).
  { unfold Rename.is_wip. rewrite Hname. unfold upper.
    rewrite !map_app.
    replace (map upper_char [w; i; p]) with (str "WIP").
    - apply contains_app.
    - destruct Hw as [-> | ->], Hi as [-> | ->], Hp as [-> | ->]; reflexivity. }
  assert (Hnot : ~ In wip_file
                     (List.filter (fun f => negb (Rename.is_wip f)) mp4_files)).
  { intros Hin. apply List.filter_In in Hin as [_ Hin]. rewrite Hwip in Hin.
    discriminate. }
  unfold Rename.video_rename_mode in Hrun.
  destruct custom_name as [|c0 cn]; [discriminate|].
  destruct mp4_files as [|f0 fl]; [discriminate|].
  injection Hrun as <-.
  match goal with
  | |- context [fold_left ?f ?l ?s] =>
      destruct (process_files_spec e cwd (c0 :: cn) l s) as (Hr & Hc & Hk)
  end.
  cbv zeta in Hr, Hc, Hk. simpl Rename.metadata_reads in Hr at 2.
  simpl in Hc. rewrite Nat.add_0_r in Hc.
  split; [exact Hwip|]. split; [rewrite Hr; exact Hnot|].
  split; [apply Hk; [exact Hfile|exact Hnot]|].
  split; [exact Hr|exact Hc].
Qed.

(** ** Pattern matching on file names *)

Section ReFacts.
Import Re Shape.

Lemma run_after (p : ascii -> bool) (s : pystr) :
  s = run_of p s ++ after_run p s.
Proof.
  induction s as [|x t IH]; simpl; [reflexivity|].
  destruct (p x); simpl; [f_equal; exact IH|reflexivity].
Qed.

Lemma run_of_all (p : ascii -> bool) (s : pystr) :
  Forall (fun c => p c = true) (run_of p s).
Proof.
  induction s as [|x t IH]; simpl; [constructor|].
  destruct (p x) eqn:E; constructor; auto.
Qed.

Lemma run_of_app (p : ascii -> bool) (a t : pystr) :
  Forall (fun c => p c = true) a ->
  match t with x :: _ => p x = false | [] => True end ->
  run_of p (a ++ t) = a /\ after_run p (a ++ t) = t.
Proof.
  intros Ha Ht. induction Ha as [|x a Hx Ha IH]; simpl.
  - destruct t as [|x t]; simpl; [auto|]. rewrite Ht. auto.
  - rewrite Hx. destruct IH as [-> ->]. auto.
Qed.

Lemma or_else_None_r (a : option caps) : or_else a None = a.
Proof. destruct a; reflexivity. Qed.

(** Greedy repetition of a class before a continuation that fails on the
    characters of the class: the whole run is taken, or nothing matches. *)
Lemma rep_class_run (ic : bool) (c : cls) (lo : nat) (hi : option nat)
      (s : pystr) (g : caps) (k : cont) :
  (forall x t g', cls_match ic c x = true -> k (x :: t) g' = None) ->
  rep ic c lo hi s g k
  = if (lo <=? length (run_of (cls_match ic c) s))
       && within hi (length (run_of (cls_match ic c) s))
    then k (after_run (cls_match ic c) s) g else None.
Proof.
  intros Hk. revert lo hi. induction s as [|x t IH]; intros lo hi.
  - simpl. destruct lo; simpl; [|reflexivity].
    destruct hi; reflexivity.
  - simpl. destruct (cls_match ic c x) eqn:Hx; simpl.
    + rewrite (Hk x t g Hx).
      assert (Hstop : (if lo =? 0 then @None caps else None) = None)
        by (destruct (lo =? 0); reflexivity).
      rewrite Hstop.
      destruct hi as [[|h]|]; simpl.
      * rewrite andb_false_r. reflexivity.
      * rewrite or_else_None_r, IH. destruct lo; reflexivity.
      * rewrite or_else_None_r, IH. destruct lo; reflexivity.
    + destruct lo; simpl; [|reflexivity]. destruct hi; reflexivity.
Qed.

(** Greedy repetition before a continuation that never fails. *)
Lemma rep_class_run_total (ic : bool) (c : cls) (lo : nat)
      (s : pystr) (g : caps) (k : cont) :
  (forall s' g', k s' g' <> None) ->
  rep ic c lo None s g k
  = if lo <=? length (run_of (cls_match ic c) s)
    then k (after_run (cls_match ic c) s) g else None.
Proof.
  intros Hk. revert lo. induction s as [|x t IH]; intros lo.
  - simpl. destruct lo; reflexivity.
  - simpl. destruct (cls_match ic c x) eqn:Hx; simpl.
    + rewrite IH. destruct lo as [|lo]; simpl.
      * destruct (k (after_run (cls_match ic c) t) g) eqn:E; [reflexivity|].
        exfalso. exact (Hk _ _ E).
      * apply or_else_None_r.
    + destruct lo; reflexivity.
Qed.

Lemma cls_digit (ic : bool) : cls_match ic Digit = is_digit.
Proof. reflexivity. Qed.

Lemma cls_alpha (x : ascii) : cls_match false QuickBatch.alpha x = is_alpha x.
Proof.
  unfold QuickBatch.alpha, is_alpha. simpl. rewrite !orb_false_r. reflexivity.
Qed.

Lemma cls_lit (c x : ascii) : cls_match false (Lit c) x = Ascii.eqb x c.
Proof. simpl. apply orb_false_r. Qed.



Lemma digit_not (c x : ascii) :
  is_digit c = false -> is_digit x = true -> Ascii.eqb x c = false.
Proof.
  intros Hc Hx.
  destruct (Ascii.eqb_spec x c) as [->|]; [congruence|reflexivity].
Qed.

Lemma alpha_not (c x : ascii) :
  is_alpha c = false -> is_alpha x = true -> Ascii.eqb x c = false.
Proof.
  intros Hc Hx.
  destruct (Ascii.eqb_spec x c) as [->|]; [congruence|reflexivity].
Qed.

Lemma run_of_ext (p q : ascii -> bool) (H : forall x, p x = q x) (s : pystr) :
  run_of p s = run_of q s.
Proof. induction s as [|x t IH]; simpl; [|rewrite H, IH]; reflexivity. Qed.

Lemma after_run_ext (p q : ascii -> bool) (H : forall x, p x = q x)
      (s : pystr) :
  after_run p s = after_run q s.
Proof. induction s as [|x t IH]; simpl; [|rewrite H, IH]; reflexivity. Qed.

Lemma take_run (p : ascii -> bool) (s : pystr) :
  firstn (length s - length (after_run p s)) s = run_of p s.
Proof.
  rewrite (run_after p s) at 1 3. rewrite length_app.
  replace (length (run_of p s) + length (after_run p s)
           - length (after_run p s)) with (length (run_of p s) + 0) by lia.
  rewrite firstn_app_2. simpl. apply app_nil_r.
Qed.

Lemma structured_run_read (hi : option nat) (anchored : bool)
      (n : nat) (s : pystr) :
  option_map (fun g => group g 2)
             (run false n (structured_re hi anchored) s [] accept)
  = read_structured hi anchored s.
Proof.
  unfold structured_re, read_structured, read_run, cat, chr, plus.
  cbn [within]. rewrite ?andb_true_r.
  assert (Hcat : forall (a : list re) (b : list re),
             fold_right Seq Eps (a ++ b)
             = fold_right Seq (fold_right Seq Eps b) a).
  { intros a b. apply fold_right_app. }
  rewrite Hcat. cbn [fold_right run].
  destruct s as [|x0 s1]; [reflexivity|].
  rewrite cls_lit. cbn [expect mbind option_bind].
  destruct (Ascii.eqb x0 "_"); [|reflexivity].
  cbn [mbind option_bind].
  rewrite rep_class_run.
  2: { intros x t g' Hx. rewrite cls_lit, (digit_not "s" x); auto. }
  rewrite cls_digit. cbn [within]. rewrite andb_true_r.
  destruct (1 <=? length (run_of is_digit s1)); [|reflexivity].
  cbn [mbind option_bind].
  destruct (after_run is_digit s1) as [|x1 s3]; [reflexivity|].
  rewrite cls_lit. cbn [expect].
  destruct (Ascii.eqb x1 "s"); [|reflexivity].
  cbn [mbind option_bind].
  destruct s3 as [|x2 s4]; [reflexivity|].
  rewrite cls_lit. cbn [expect].
  destruct (Ascii.eqb x2 "_"); [|reflexivity].
  cbn [mbind option_bind].
  change (Union (Range "a" "z") (Range "A" "Z")) with QuickBatch.alpha.
  rewrite rep_class_run.
  2: { intros x t g' Hx. rewrite cls_lit, (alpha_not "_" x); auto.
       rewrite <- cls_alpha. exact Hx. }
  rewrite (run_of_ext _ _ cls_alpha), (after_run_ext _ _ cls_alpha).
  destruct ((2 <=? length (run_of is_alpha s4))
            && within hi (length (run_of is_alpha s4))); [|reflexivity].
  cbn [mbind option_bind].
  destruct (after_run is_alpha s4) as [|x3 s6] eqn:Es5; [reflexivity|].
  rewrite cls_lit. cbn [expect].
  destruct (Ascii.eqb x3 "_"); [|reflexivity].
  cbn [mbind option_bind].
  rewrite rep_class_run.
  2: { intros x t g' Hx. rewrite cls_lit, (digit_not "x" x); auto. }
  rewrite cls_digit. cbn [within]. rewrite andb_true_r.
  destruct (1 <=? length (run_of is_digit s6)); [|reflexivity].
  cbn [mbind option_bind].
  destruct (after_run is_digit s6) as [|x4 s8]; [reflexivity|].
  rewrite cls_lit. cbn [expect].
  destruct (Ascii.eqb x4 "x"); [|reflexivity].
  cbn [mbind option_bind].
  destruct anchored; cbn [fold_right run negb orb].
  - rewrite rep_class_run.
    2: { intros x t g' Hx. rewrite cls_digit in Hx.
         destruct t; cbn [at_end]; [|reflexivity].
         rewrite (digit_not "010" x); auto. }
    rewrite cls_digit. cbn [within]. rewrite andb_true_r.
    destruct (1 <=? length (run_of is_digit s8)); [|reflexivity].
    cbn [mbind option_bind].
    destruct (at_end (after_run is_digit s8)); [|reflexivity].
    unfold accept. cbn [option_map group Nat.eqb].
    rewrite <- Es5. rewrite take_run. reflexivity.
  - rewrite rep_class_run_total by (intros; discriminate).
    rewrite cls_digit.
    destruct (1 <=? length (run_of is_digit s8)); [|reflexivity].
    unfold accept. cbn [option_map group Nat.eqb mbind option_bind].
    rewrite <- Es5. rewrite take_run. reflexivity.
Qed.

Lemma expect_Some (c : ascii) (s t : pystr) :
  expect c s = Some t <-> s = c :: t.
Proof.
  unfold expect. split.
  - destruct s as [|x s]; [discriminate|].
    destruct (Ascii.eqb_spec x c) as [->|]; [|discriminate].
    intros [= ->]. reflexivity.
  - intros ->. rewrite Ascii.eqb_refl. reflexivity.
Qed.

Lemma read_run_Some (p : ascii -> bool) (lo : nat) (hi : option nat)
      (s r t : pystr) :
  read_run p lo hi s = Some (r, t) ->
  s = r ++ t /\ Forall (fun c => p c = true) r /\ lo <= length r
  /\ within hi (length r) = true.
Proof.
  unfold read_run.
  destruct ((lo <=? length (run_of p s)) && within hi (length (run_of p s)))
    eqn:E; [|discriminate].
  intros [= <- <-]. apply andb_true_iff in E as [E1 E2].
  apply Nat.leb_le in E1.
  split; [apply run_after|]. split; [apply run_of_all|]. auto.
Qed.

Lemma read_run_app (p : ascii -> bool) (lo : nat) (hi : option nat)
      (a t : pystr) :
  Forall (fun c => p c = true) a -> lo <= length a ->
  within hi (length a) = true ->
  match t with x :: _ => p x = false | [] => True end ->
  read_run p lo hi (a ++ t) = Some (a, t).
Proof.
  intros Ha Hlo Hhi Ht. unfold read_run.
  destruct (run_of_app p a t Ha Ht) as [-> ->].
  rewrite Hhi. apply Nat.leb_le in Hlo. rewrite Hlo. reflexivity.
Qed.

Lemma run_of_app_ge (p : ascii -> bool) (a t : pystr) :
  Forall (fun c => p c = true) a -> length a <= length (run_of p (a ++ t)).
Proof.
  intros Ha. induction Ha as [|x a Hx Ha IH]; simpl; [lia|].
  rewrite Hx. simpl. lia.
Qed.

Lemma read_structured_sound (hi : option nat) (anchored : bool)
      (s lang : pystr) :
  read_structured hi anchored s = Some lang -> structured_at lang s.
Proof.
  unfold read_structured. intros H.
  apply bind_Some in H as (s1 & E1 & H). apply expect_Some in E1.
  apply bind_Some in H as ([d s2] & E2 & H). apply read_run_Some in E2.
  apply bind_Some in H as (s3 & E3 & H). apply expect_Some in E3.
  apply bind_Some in H as (s4 & E4 & H). apply expect_Some in E4.
  apply bind_Some in H as ([l s5] & E5 & H). apply read_run_Some in E5.
  apply bind_Some in H as (s6 & E6 & H). apply expect_Some in E6.
  apply bind_Some in H as ([w s7] & E7 & H). apply read_run_Some in E7.
  apply bind_Some in H as (s8 & E8 & H). apply expect_Some in E8.
  apply bind_Some in H as ([h s9] & E9 & H). apply read_run_Some in E9.
  destruct (negb anchored || at_end s9); [|discriminate].
  injection H as <-.
  destruct E2 as (-> & Hd & Hd1 & _), E5 as (-> & Hl & Hl2 & _),
           E7 as (-> & Hw & Hw1 & _), E9 as (-> & Hh & Hh1 & _).
  subst. exists d, w, h, s9.
  assert (Hne : forall a : pystr, 1 <= length a -> a <> []).
  { intros [|] Ha; [simpl in Ha; lia|discriminate]. }
  repeat split; auto.
Qed.

Lemma read_structured_complete (hi : option nat) (anchored : bool)
      (s lang d w h rest : pystr) :
  s = str "_" ++ d ++ str "s_" ++ lang ++ str "_" ++ w ++ str "x" ++ h
          ++ rest ->
  digits d -> 2 <= length lang -> within hi (length lang) = true ->
  letters lang -> digits w -> digits h ->
  (anchored = true -> rest = []) ->
  read_structured hi anchored s = Some lang.
Proof.
  intros -> [Hd0 Hd] Hl2 Hhi Hl [Hw0 Hw] [Hh0 Hh] Hrest.
  assert (Hlen : forall a : pystr, a <> [] -> 1 <= length a).
  { intros [|] Ha; [congruence|simpl; lia]. }
  unfold read_structured, str. simpl.
  rewrite read_run_app; auto. simpl.
  rewrite read_run_app; auto. simpl.
  rewrite read_run_app; auto. simpl.
  unfold read_run. cbn [within]. rewrite andb_true_r.
  pose proof (run_of_app_ge is_digit h rest Hh) as Hge.
  assert (E : (1 <=? length (run_of is_digit (h ++ rest))) = true).
  { apply Nat.leb_le. specialize (Hlen h Hh0). lia. }
  rewrite E. simpl.
  destruct anchored; simpl; [|reflexivity].
  rewrite (Hrest eq_refl), app_nil_r.
  destruct (run_of_app is_digit h [] Hh I) as [_ Ha]. rewrite app_nil_r in Ha.
  rewrite Ha. reflexivity.
Qed.

Lemma search_from_skip (ic : bool) (n : nat) (r : re) (pre suf : pystr) :
  (forall p1 p2, pre = p1 ++ p2 -> p2 <> [] ->
                 run ic n r (p2 ++ suf) [] accept = None) ->
  search_from ic n r (pre ++ suf) = search_from ic n r suf.
Proof.
  induction pre as [|x pre IH]; intros H; [reflexivity|].
  pose proof (H [] (x :: pre) eq_refl ltac:(discriminate)) as H0.
  cbn [app search_from] in *. rewrite H0. cbn [or_else].
  apply IH. intros p1 p2 -> Hp2. apply (H (x :: p1) p2); auto.
Qed.

Lemma search_from_here (ic : bool) (n : nat) (r : re) (s : pystr) (g : caps) :
  run ic n r s [] accept = Some g -> search_from ic n r s = Some g.
Proof. intros H. destruct s; cbn [search_from]; rewrite H; reflexivity. Qed.

Lemma search_from_none (ic : bool) (n : nat) (r : re) (s : pystr) :
  (forall p1 p2, s = p1 ++ p2 -> run ic n r p2 [] accept = None) ->
  search_from ic n r s = None.
Proof.
  induction s as [|x s IH]; intros H.
  - cbn [search_from]. rewrite (H [] []); reflexivity.
  - cbn [search_from]. rewrite (H [] (x :: s)) by reflexivity. cbn [or_else].
    apply IH. intros p1 p2 ->. apply (H (x :: p1) p2). reflexivity.
Qed.

Lemma option_map_None {A B} (f : A -> B) (o : option A) :
  option_map f o = None -> o = None.
Proof. destruct o; [discriminate|reflexivity]. Qed.

Lemma option_map_Some {A B} (f : A -> B) (o : option A) (b : B) :
  option_map f o = Some b -> exists a, o = Some a /\ f a = b.
Proof. destruct o; [intros [= <-]; eauto|discriminate]. Qed.

(** The leftmost structured segment is the one that [re.search] finds. *)
Lemma search_structured_leftmost (hi : option nat) (anchored : bool)
      (pre suf lang : pystr) :
  read_structured hi anchored suf = Some lang ->
  (forall p1 p2 lang1, pre = p1 ++ p2 -> p2 <> [] ->
                       ~ structured_at lang1 (p2 ++ suf)) ->
  exists g, search false (structured_re hi anchored) (pre ++ suf) = Some g
            /\ group g 2 = lang.
Proof.
  intros Hread Hleft. unfold search.
  rewrite <- structured_run_read with (n := length (pre ++ suf)) in Hread.
  apply option_map_Some in Hread as (g & Hg & Hl).
  exists g. split; [|exact Hl].
  rewrite search_from_skip.
  - apply search_from_here. exact Hg.
  - intros p1 p2 E Hp2. apply option_map_None with (f := fun g => group g 2).
    rewrite structured_run_read.
    destruct (read_structured hi anchored (p2 ++ suf)) as [l|] eqn:El;
      [|reflexivity].
    exfalso. apply (Hleft p1 p2 l E Hp2).
    apply (read_structured_sound _ _ _ _ El).
Qed.

Lemma search_structured_none (hi : option nat) (anchored : bool) (s : pystr) :
  (forall p1 p2 lang, s = p1 ++ p2 -> ~ structured_at lang p2) ->
  search false (structured_re hi anchored) s = None.
Proof.
  intros H. unfold search. apply search_from_none. intros p1 p2 E.
  apply option_map_None with (f := fun g => group g 2).
  rewrite structured_run_read.
  destruct (read_structured hi anchored p2) as [l|] eqn:El; [|reflexivity].
  exfalso. apply (H p1 p2 l E). apply (read_structured_sound _ _ _ _ El).
Qed.

Lemma format_re_eq : QuickBatch.format_re = structured_re None false.
Proof. reflexivity. Qed.

Lemma middle_re_eq : VideoRenamer.middle_re = structured_re (Some 2) true.
Proof. reflexivity. Qed.

Lemma lower_char_s (c : ascii) :
  Ascii.eqb (lower_char c) "s" = true <-> is_s c.
Proof.
  unfold is_s. split.
  - destruct c as [[] [] [] [] [] [] [] []]; vm_compute; intros H;
      try discriminate H; auto.
  - intros [-> | ->]; reflexivity.
Qed.

Lemma cls_lit_s (c : ascii) :
  cls_match true (Lit "s") c = Ascii.eqb (lower_char c) "s".
Proof.
  cbn [cls_match andb]. change (lower_char "s") with "s".
  destruct (Ascii.eqb_spec c "s") as [->|]; reflexivity.
Qed.

Lemma lower_digits (d : pystr) :
  Forall (fun c => is_digit c = true) d -> lower d = d.
Proof.
  induction 1 as [|x d Hx Hd IH]; [reflexivity|].
  unfold lower in *. simpl. rewrite IH. f_equal.
  destruct x as [[] [] [] [] [] [] [] []]; vm_compute in Hx;
    try discriminate Hx; reflexivity.
Qed.

Lemma audio_run_read (n : nat) (s : pystr) :
  option_map (fun g => group g 1)
             (run true n QuickBatch.audio_duration_re s [] accept)
  = read_audio_marker s.
Proof.
  unfold QuickBatch.audio_duration_re, read_audio_marker, read_run, cat, chr,
    plus.
  cbn [fold_right run within]. rewrite andb_true_r.
  rewrite rep_class_run.
  2: { intros x t g' Hx. rewrite cls_digit in Hx. rewrite !cls_lit_s.
       assert (E : Ascii.eqb (lower_char x) "s" = false).
       { destruct (Ascii.eqb (lower_char x) "s") eqn:E; [|reflexivity].
         apply lower_char_s in E as [-> | ->]; discriminate Hx. }
       rewrite E. reflexivity. }
  rewrite cls_digit. cbn [within]. rewrite andb_true_r.
  destruct (1 <=? length (run_of is_digit s)); [|reflexivity].
  cbn [mbind option_bind].
  destruct (after_run is_digit s) as [|c rest] eqn:Ea; [reflexivity|].
  rewrite !cls_lit_s.
  destruct (Ascii.eqb (lower_char c) "s"); [|reflexivity].
  unfold accept. cbn [or_else option_map group Nat.eqb].
  f_equal. pose proof (run_after is_digit s) as Hs. rewrite Ea in Hs.
  remember (run_of is_digit s) as d eqn:Ed. clear Ed Ea.
  assert (E : s = (d ++ [c]) ++ rest) by (rewrite <- app_assoc; exact Hs).
  replace (length s - length rest) with (length (d ++ [c]))
    by (rewrite E, !length_app; simpl; lia).
  rewrite E. apply take_app_length.
Qed.

Lemma read_audio_marker_sound (s m : pystr) :
  read_audio_marker s = Some m -> audio_marker_at s.
Proof.
  unfold read_audio_marker. intros H.
  apply bind_Some in H as ([d s1] & E & H). apply read_run_Some in E.
  destruct E as (-> & Hd & Hd1 & _).
  destruct s1 as [|c rest]; [discriminate|].
  destruct (Ascii.eqb (lower_char c) "s") eqn:Ec; [|discriminate].
  exists d, c, rest. split; [reflexivity|]. split; [|apply lower_char_s, Ec].
  split; [|exact Hd]. destruct d; [simpl in Hd1; lia|discriminate].
Qed.

Lemma read_audio_marker_complete (d rest : pystr) (c : ascii) :
  digits d -> is_s c -> read_audio_marker (d ++ c :: rest) = Some (d ++ [c]).
Proof.
  intros [Hd0 Hd] Hc. unfold read_audio_marker.
  rewrite read_run_app; auto.
  - cbn [mbind option_bind]. apply lower_char_s in Hc. rewrite Hc. reflexivity.
  - destruct d; [congruence|simpl; lia].
  - destruct Hc as [-> | ->]; reflexivity.
Qed.




Lemma in_tails (p1 p2 : pystr) : In p2 (tails (p1 ++ p2)).
Proof.
  induction p1 as [|x p1 IH]; simpl.
  - destruct p2; simpl; auto.
  - right. exact IH.
Qed.

Lemma none_before_spec {A} (read : pystr -> option A) (P : pystr -> Prop)
      (pre suf : pystr) :
  (forall s, P s -> read s <> None) ->
  none_before read pre suf = true ->
  forall p1 p2, pre = p1 ++ p2 -> p2 <> [] -> ~ P (p2 ++ suf).
Proof.
  intros Hread Hcheck p1 p2 -> Hp2 HP. unfold none_before in Hcheck.
  rewrite forallb_forall in Hcheck. specialize (Hcheck p2 (in_tails p1 p2)).
  destruct p2 as [|x p2]; [congruence|].
  destruct (read ((x :: p2) ++ suf)) eqn:E; [discriminate|].
  exact (Hread _ HP E).
Qed.

Lemma none_anywhere_spec {A} (read : pystr -> option A) (P : pystr -> Prop)
      (s : pystr) :
  (forall s, P s -> read s <> None) ->
  none_anywhere read s = true ->
  forall p1 p2, s = p1 ++ p2 -> ~ P p2.
Proof.
  intros Hread Hcheck p1 p2 -> HP. unfold none_anywhere in Hcheck.
  rewrite forallb_forall in Hcheck. specialize (Hcheck p2 (in_tails p1 p2)).
  destruct (read p2) eqn:E; [discriminate|]. exact (Hread _ HP E).
Qed.

Lemma structured_read (lang s : pystr) :
  structured_at lang s -> read_structured None false s <> None.
Proof.
  intros (d & w & h & rest & E & Hd & Hl2 & Hl & Hw & Hh).
  assert (Hr : read_structured None false s = Some lang)
    by (apply (read_structured_complete None false s lang d w h rest);
        auto; discriminate).
  rewrite Hr. discriminate.
Qed.

Lemma audio_marker_read (s : pystr) :
  audio_marker_at s -> read_audio_marker s <> None.
Proof.
  intros (d & c & rest & -> & Hd & Hc).
  rewrite (read_audio_marker_complete d rest c Hd Hc). discriminate.
Qed.


(** The leftmost structured segment of the stem is the one that the parser
    of [QuickBatch.py] reads. *)
Lemma quickbatch_reads_leftmost (filename pre suf lang : pystr) :
  stem filename = pre ++ suf ->
  read_structured None false suf = Some lang ->
  leftmost_structured pre suf ->
  QuickBatch.extract_language_prefix filename = lower lang.
Proof.
  intros Hstem Hread Hleft.
  unfold QuickBatch.extract_language_prefix. cbv zeta.
  rewrite Hstem, format_re_eq.
  destruct (search_structured_leftmost None false pre suf lang Hread Hleft)
    as (g & -> & <-).
  reflexivity.
Qed.

(** The parser of [video_renamer.py] reads it when it has two letters and
    ends the stem. *)
Lemma video_renamer_reads_leftmost (filename pre suf lang : pystr) :
  stem filename = pre ++ suf ->
  read_structured (Some 2) true suf = Some lang ->
  leftmost_structured pre suf ->
  VideoRenamer.extract_language_prefix filename = lower lang.
Proof.
  intros Hstem Hread Hleft.
  unfold VideoRenamer.extract_language_prefix. cbv zeta.
  rewrite Hstem, middle_re_eq.
  destruct (search_structured_leftmost (Some 2) true pre suf lang Hread Hleft)
    as (g & -> & <-).
  reflexivity.
Qed.

Lemma endswith_sec (d : pystr) : endswith (str "sec") (d ++ str "s") = false.
Proof. unfold endswith. rewrite rev_app_distr. reflexivity. Qed.

Lemma lower_marker (d : pystr) (c : ascii) :
  Forall (fun x => is_digit x = true) d -> is_s c ->
  lower (d ++ [c]) = d ++ str "s".
Proof.
  intros Hd Hc. unfold lower. rewrite map_app. fold (lower d).
  rewrite lower_digits by exact Hd. destruct Hc as [-> | ->]; reflexivity.
Qed.

Lemma audio_marker_found (filename pre N post : pystr) (c : ascii) :
  stem filename = pre ++ N ++ c :: post -> digits N -> is_s c ->
  leftmost_audio_marker pre (N ++ c :: post) ->
  QuickBatch.extract_duration_from_audio_name filename = Some (N ++ str "s").
Proof.
  intros Hstem HN Hc Hleft.
  unfold QuickBatch.extract_duration_from_audio_name. cbv zeta.
  rewrite Hstem. unfold search.
  pose proof (read_audio_marker_complete N post c HN Hc) as Hread.
  rewrite <- audio_run_read with (n := length (pre ++ N ++ c :: post)) in Hread.
  apply option_map_Some in Hread as (g & Hg & Hgrp).
  rewrite search_from_skip.
  - rewrite (search_from_here _ _ _ _ _ Hg), Hgrp.
    rewrite lower_marker by (auto; apply HN).
    rewrite endswith_sec. reflexivity.
  - intros p1 p2 E Hp2.
    apply option_map_None with (f := fun g => group g 1).
    rewrite audio_run_read.
    destruct (read_audio_marker (p2 ++ N ++ c :: post)) as [m|] eqn:Em;
      [|reflexivity].
    exfalso. apply (Hleft p1 p2 E Hp2).
    apply (read_audio_marker_sound _ _ Em).
Qed.


End ReFacts.

Section ParserClaims.
Import Shape Samples.

(** The claim C6 fails in both files.  In [QuickBatch.py] a structured
    segment that follows another one is not read: the letters group of the
    first one is returned.  In [video_renamer.py] a structured segment that
    does not end the stem, or whose letters group has three letters, is
    ignored, and the prefix pattern or the default decides. *)
Lemma structured_segment_not_read :
  (stem name_two_segments = str "x_1s_de_2x3" ++ str "_4s_fr_5x6"
   /\ structured_at (str "fr") (str "_4s_fr_5x6")
   /\ QuickBatch.extract_language_prefix name_two_segments = str "de"
   /\ QuickBatch.extract_language_prefix name_two_segments
      <> lower (str "fr"))
  /\ (stem name_structured_inside = str "fr_clip" ++ str "_30s_de_1920x1080_v2"
      /\ structured_at (str "de") (str "_30s_de_1920x1080_v2")
      /\ VideoRenamer.extract_language_prefix name_structured_inside = str "fr"
      /\ VideoRenamer.extract_language_prefix name_structured_inside
         <> lower (str "de"))
  /\ (stem name_three_letters = str "clip" ++ str "_30s_eng_1920x1080"
      /\ structured_at (str "eng") (str "_30s_eng_1920x1080")
      /\ VideoRenamer.extract_language_prefix name_three_letters = str "en"
      /\ VideoRenamer.extract_language_prefix name_three_letters
         <> lower (str "eng")).
Proof.
  split; [|split];
    (split; [reflexivity|]; split; [|split; [reflexivity|discriminate]]).
  - exists (str "4"), (str "5"), (str "6"), [].
    split; [reflexivity|].
    repeat split; try discriminate; try (simpl; lia); repeat constructor.
  - exists (str "30"), (str "1920"), (str "1080"), (str "_v2").
    split; [reflexivity|].
    repeat split; try discriminate; try (simpl; lia); repeat constructor.
  - exists (str "30"), (str "1920"), (str "1080"), [].
    split; [reflexivity|].
    repeat split; try discriminate; try (simpl; lia); repeat constructor.
Qed.

(** C6, amended.  When the stem of a file name contains a structured segment
    [_<digits>s_<letters, at least two>_<digits>x<digits>], the function
    [extract_language_prefix] of [QuickBatch.py] returns the letters group of
    the leftmost such segment, in lower case, whatever precedes the segment
    (a two-letter prefix included); the function of [video_renamer.py]
    returns that group when it has exactly two letters and the leftmost
    segment ends the stem. *)
Theorem structured_pattern_wins (filename pre suf lang d w h rest : pystr) :
  stem filename = pre ++ suf ->
  suf = str "_" ++ d ++ str "s_" ++ lang ++ str "_" ++ w ++ str "x" ++ h
            ++ rest ->
  digits d -> 2 <= length lang -> letters lang -> digits w -> digits h ->
  leftmost_structured pre suf ->
  QuickBatch.extract_language_prefix filename = lower lang
  /\ (length lang = 2 -> rest = [] ->
      VideoRenamer.extract_language_prefix filename = lower lang).
Proof.
  intros Hstem Hsuf Hd Hl2 Hl Hw Hh Hleft. split.
  - apply (quickbatch_reads_leftmost filename pre suf lang Hstem); [|exact Hleft].
    apply (read_structured_complete None false suf lang d w h rest);
      auto; discriminate.
  - intros Htwo Hrest.
    apply (video_renamer_reads_leftmost filename pre suf lang Hstem);
      [|exact Hleft].
    apply (read_structured_complete (Some 2) true suf lang d w h rest); auto.
    simpl. rewrite Htwo. reflexivity.
Qed.

Lemma structured_pattern_wins_witness :
  QuickBatch.extract_language_prefix name_structured = str "de"
  /\ VideoRenamer.extract_language_prefix name_structured = str "de".
Proof.
  assert (H : QuickBatch.extract_language_prefix name_structured
              = lower (str "de")
              /\ (length (str "de") = 2 -> @nil ascii = [] ->
                  VideoRenamer.extract_language_prefix name_structured
                  = lower (str "de"))).
  { apply (structured_pattern_wins
             name_structured (str "fr_clip") (str "_30s_de_1920x1080")
             (str "de") (str "30") (str "1920") (str "1080") []).
    - reflexivity.
    - reflexivity.
    - split; [discriminate|]. repeat constructor.
    - simpl. lia.
    - repeat constructor.
    - split; [discriminate|]. repeat constructor.
    - split; [discriminate|]. repeat constructor.
    - intros p1 p2 lang.
      apply (none_before_spec (read_structured None false)
               (structured_at lang)); [apply structured_read|reflexivity]. }
  destruct H as [H1 H2]. split; [exact H1|apply H2; reflexivity].
Defined.

(** The claim C7 fails: on a name with a three-letter language group the two
    files return different codes. *)
Lemma language_parsers_differ :
  QuickBatch.extract_language_prefix name_three_letters = str "eng"
  /\ VideoRenamer.extract_language_prefix name_three_letters = str "en"
  /\ QuickBatch.extract_language_prefix name_three_letters
     <> VideoRenamer.extract_language_prefix name_three_letters.
Proof. split; [reflexivity|]. split; [reflexivity|discriminate]. Qed.

(** C7, amended.  The functions [extract_language_prefix] of the two files
    return the same code for every file name whose stem contains no
    structured segment, and for every file name whose stem ends with its
    leftmost structured segment when the letters group of that segment has
    exactly two letters. *)
Theorem language_parsers_agree (filename : pystr) :
  (forall p1 p2 lang, stem filename = p1 ++ p2 -> ~ structured_at lang p2)
  \/ (exists pre d lang w h,
         stem filename
         = pre ++ str "_" ++ d ++ str "s_" ++ lang ++ str "_" ++ w
               ++ str "x" ++ h
         /\ digits d /\ length lang = 2 /\ letters lang /\ digits w /\ digits h
         /\ leftmost_structured
              pre (str "_" ++ d ++ str "s_" ++ lang ++ str "_" ++ w
                       ++ str "x" ++ h)) ->
  QuickBatch.extract_language_prefix filename
  = VideoRenamer.extract_language_prefix filename.
Proof.
  intros [Hnone|(pre & d & lang & w & h & Hstem & Hd & Htwo & Hl & Hw & Hh
                 & Hleft)].
  - unfold QuickBatch.extract_language_prefix,
      VideoRenamer.extract_language_prefix. cbv zeta.
    rewrite format_re_eq, middle_re_eq.
    rewrite !search_structured_none by exact Hnone. reflexivity.
  - assert (Hlen : 2 <= length lang) by lia.
    assert (Hqb : read_structured None false
                    (str "_" ++ d ++ str "s_" ++ lang ++ str "_" ++ w
                         ++ str "x" ++ h) = Some lang).
    { apply (read_structured_complete None false _ lang d w h []);
        auto; try discriminate.
      rewrite app_nil_r. reflexivity. }
    assert (Hvr : read_structured (Some 2) true
                    (str "_" ++ d ++ str "s_" ++ lang ++ str "_" ++ w
                         ++ str "x" ++ h) = Some lang).
    { apply (read_structured_complete (Some 2) true _ lang d w h []); auto.
      - rewrite app_nil_r. reflexivity.
      - simpl. rewrite Htwo. reflexivity. }
    rewrite (quickbatch_reads_leftmost filename pre _ lang Hstem Hqb Hleft),
      (video_renamer_reads_leftmost filename pre _ lang Hstem Hvr Hleft).
    reflexivity.
Qed.

Lemma language_parsers_agree_witness :
  QuickBatch.extract_language_prefix name_prefix_only
  = VideoRenamer.extract_language_prefix name_prefix_only.
Proof.
  apply language_parsers_agree. left. intros p1 p2 lang.
  apply (none_anywhere_spec (read_structured None false) (structured_at lang));
    [apply structured_read|reflexivity].
Defined.

(** The claim C9 fails for digit strings that are not the digits of the
    leftmost marker: in [v_145s] the digits [45] are followed by [s], and in
    [take2s_45sec] by [sec], yet the markers returned are [145s] and
    [2s]. *)
Lemma audio_marker_is_the_leftmost :
  (stem name_audio_inner = str "v_1" ++ str "45" ++ str "s"
   /\ digits (str "45")
   /\ QuickBatch.extract_duration_from_audio_name name_audio_inner
      = Some (str "145s")
   /\ QuickBatch.extract_duration_from_audio_name name_audio_inner
      <> Some (str "45" ++ str "s"))
  /\ (stem name_audio_second = str "take2s_" ++ str "45" ++ str "sec"
      /\ QuickBatch.extract_duration_from_audio_name name_audio_second
         = Some (str "2s")
      /\ QuickBatch.extract_duration_from_audio_name name_audio_second
         <> Some (str "45" ++ str "s")).
Proof.
  split.
  - split; [reflexivity|]. split; [|split; [reflexivity|discriminate]].
    split; [discriminate|repeat constructor].
  - split; [reflexivity|]. split; [reflexivity|discriminate].
Qed.

(** C9, amended.  On file names of 8-bit characters, and for a digit string
    [N]: [extract_duration_from_audio_name] returns the marker [N] followed
    by [s] when the leftmost place of the stem where digits are followed by
    the letter [s] in either case is [N] followed by that letter, and the
    same marker when [N] is followed there by [sec] in any mixture of cases;
    a stem without digits followed by [s] gives [None], which differs from
    every marker. *)
Theorem audio_marker_normalised (N : pystr) :
  digits N ->
  (forall filename pre c post,
      stem filename = pre ++ N ++ c :: post -> is_s c ->
      leftmost_audio_marker pre (N ++ c :: post) ->
      QuickBatch.extract_duration_from_audio_name filename
      = Some (N ++ str "s"))
  /\ (forall filename pre c1 c2 c3 post,
         stem filename = pre ++ N ++ c1 :: c2 :: c3 :: post ->
         is_s c1 -> is_e c2 -> is_c c3 ->
         leftmost_audio_marker pre (N ++ c1 :: c2 :: c3 :: post) ->
         QuickBatch.extract_duration_from_audio_name filename
         = Some (N ++ str "s"))
  /\ (forall filename,
         (forall p1 p2, stem filename = p1 ++ p2 -> ~ audio_marker_at p2) ->
         QuickBatch.extract_duration_from_audio_name filename = None)
  /\ (forall marker : pystr, @None pystr <> Some marker).
Proof.
  intros HN. split; [|split; [|split]].
  - intros filename pre c post Hstem Hc Hleft.
    apply (audio_marker_found filename pre N post c); auto.
  - intros filename pre c1 c2 c3 post Hstem Hc1 _ _ Hleft.
    apply (audio_marker_found filename pre N (c2 :: c3 :: post) c1); auto.
  - intros filename Hnone.
    unfold QuickBatch.extract_duration_from_audio_name. cbv zeta.
    unfold Re.search. rewrite search_from_none; [reflexivity|].
    intros p1 p2 E. apply option_map_None with (f := fun g => Re.group g 1).
    rewrite audio_run_read.
    destruct (read_audio_marker p2) as [m|] eqn:Em; [|reflexivity].
    exfalso. apply (Hnone p1 p2 E). apply (read_audio_marker_sound _ _ Em).
  - discriminate.
Qed.

Lemma audio_marker_normalised_witness :
  QuickBatch.extract_duration_from_audio_name name_audio_s = Some (str "45s")
  /\ QuickBatch.extract_duration_from_audio_name name_audio_sec
     = Some (str "45s").
Proof.
  assert (HN : digits (str "45")) by (split; [discriminate|repeat constructor]).
  destruct (audio_marker_normalised (str "45") HN) as (Hs & Hsec & _).
  split.
  - apply (Hs name_audio_s (str "voice_") "s"%char []).
    + reflexivity.
    + left. reflexivity.
    + intros p1 p2.
      apply (none_before_spec read_audio_marker audio_marker_at);
        [apply audio_marker_read|reflexivity].
  - apply (Hsec name_audio_sec (str "voice_") "S"%char "E"%char "C"%char []).
    + reflexivity.
    + right. reflexivity.
    + right. reflexivity.
    + right. reflexivity.
    + intros p1 p2.
      apply (none_before_spec read_audio_marker audio_marker_at);
        [apply audio_marker_read|reflexivity].
Defined.

End ParserClaims.

(** ** The functions on the examples of the specification *)

Section Examples.
Import Samples Matching.

Example language_of_prefix :
  QuickBatch.extract_language_prefix (str "fr_clip.mp4") = str "fr".
Proof. reflexivity. Qed.

Example language_of_structured_name :
  QuickBatch.extract_language_prefix (str "clip_30s_de_1920x1080.mp4")
  = str "de".
Proof. reflexivity. Qed.

Example language_by_default :
  QuickBatch.extract_language_prefix (str "clip.mp4") = str "en".
Proof. reflexivity. Qed.

Example new_filename :
  QuickBatch.generate_new_filename (str "promo") 90 (str "en") (str "1080x1920")
  = str "promo_90s_en_1080x1920.mp4".
Proof. reflexivity. Qed.

Example video_duration_marker :
  QuickBatch.extract_duration_from_video_name (str "promo_30s_en_1080x1920.mp4")
  = Some (str "30s").
Proof. reflexivity. Qed.

Example audio_groups :
  keys (find_audio_files [in_work "a_30s.wav"; in_work "b_45sec.wav";
                          in_work "c.wav"; in_work "d_30S.wav"])
  = [Some (str "30s"); Some (str "45s"); None].
Proof. reflexivity. Qed.

Example backup_path_of_sample :
  Replace.backup_path_of sample_video = sample_backup.
Proof. reflexivity. Qed.

End Examples.

(** ** The claims on sample inputs *)

Section Witnesses.
Import Samples Matching.

Lemma backup_is_created_once_witness :
  snd (Replace.merge_audio_video env_ok sample_video sample_audio fs_fresh)
  !! sample_backup = Some original_bytes
  /\ snd (Replace.merge_audio_video env_ok sample_video sample_audio
            fs_backed_up)
     !! sample_backup = Some original_bytes.
Proof.
  split.
  - pose proof (backup_is_created_once env_ok sample_video sample_audio fs_fresh
                  (fst (Replace.merge_audio_video env_ok sample_video
                          sample_audio fs_fresh))
                  (snd (Replace.merge_audio_video env_ok sample_video
                          sample_audio fs_fresh))) as H.
    cbv zeta in H. destruct H as (_ & H & _); [apply surjective_pairing|].
    apply (H original_bytes); vm_compute; reflexivity.
  - pose proof (backup_is_created_once env_ok sample_video sample_audio
                  fs_backed_up
                  (fst (Replace.merge_audio_video env_ok sample_video
                          sample_audio fs_backed_up))
                  (snd (Replace.merge_audio_video env_ok sample_video
                          sample_audio fs_backed_up))) as H.
    cbv zeta in H. destruct H as (H & _); [apply surjective_pairing|].
    apply (H original_bytes). vm_compute. reflexivity.
Defined.

Lemma failed_merge_leaves_video_witness :
  snd (Replace.merge_audio_video env_cleanup_fails sample_video sample_audio
         fs_backed_up) !! sample_backup = Some original_bytes
  /\ snd (Replace.merge_audio_video env_cleanup_fails sample_video sample_audio
            fs_backed_up) !! sample_video = Some second_bytes.
Proof.
  pose proof (failed_merge_leaves_video env_cleanup_fails sample_video
                sample_audio fs_backed_up
                (fst (Replace.merge_audio_video env_cleanup_fails sample_video
                        sample_audio fs_backed_up))
                (snd (Replace.merge_audio_video env_cleanup_fails sample_video
                        sample_audio fs_backed_up))) as H.
  destruct H as (Hb & Hv & _).
  - apply surjective_pairing.
  - vm_compute. discriminate.
  - split; [apply Hb; reflexivity|]. apply Hv; reflexivity.
Defined.

Lemma no_marker_audios_pair_with_all_videos_witness :
  exists pairs,
    merge_pairs (find_audio_files case1_audios)
                (find_video_files_in_subfolders case1_videos) = Some pairs
    /\ length pairs = 4.
Proof.
  pose proof (no_marker_audios_pair_with_all_videos
                (find_audio_files case1_audios)
                (find_video_files_in_subfolders case1_videos)) as H.
  cbv zeta in H. destruct H as (pairs & Hp & _ & Hlen & _).
  - vm_compute. discriminate.
  - apply group_by_duration_nodup.
  - vm_compute. intros k [<-|[]]. reflexivity.
  - exists pairs. split; [exact Hp|]. rewrite Hlen. vm_compute. reflexivity.
Defined.


Lemma strict_matching_pairs_witness :
  merge_pairs (find_audio_files case3_audios)
              (find_video_files_in_subfolders case3_videos)
  = Some [(in_en "v1_30s.mp4", in_work "a_30s.wav")].
Proof.
  pose proof (strict_matching_pairs
                (find_audio_files case3_audios)
                (find_video_files_in_subfolders case3_videos)) as H.
  cbv zeta in H. destruct H as [H _].
  - vm_compute. discriminate.
  - vm_compute. intros [H _]. discriminate H.
  - rewrite H. vm_compute. reflexivity.
Defined.

Lemma handle_duplicate_names_first_free_witness :
  Resolver.handle_duplicate_names fs_duplicates (in_work "a.mp4")
  = in_work "a_2.mp4"
  /\ Resolver.handle_duplicate_names fs_duplicates (in_work "b.mp4")
     = in_work "b.mp4".
Proof.
  split.
  - destruct (handle_duplicate_names_first_free fs_duplicates (in_work "a.mp4"))
      as (_ & _ & H).
    apply (H [str "work"]); vm_compute; eauto.
  - destruct (handle_duplicate_names_first_free fs_duplicates (in_work "b.mp4"))
      as (H & _).
    apply H. vm_compute. reflexivity.
Defined.

Lemma wip_files_are_skipped_witness :
  exists st,
    Rename.video_rename_mode rename_env work (str "promo")
                             [ordinary_file; wip_file] fs_rename = Some st
    /\ Rename.files st !! wip_file = Some [Byte.x07]
    /\ Rename.metadata_reads st = [ordinary_file]
    /\ Rename.processed_count st + Rename.error_count st = 1.
Proof.
  eexists. split; [reflexivity|].
  match goal with
  | |- context [Rename.files ?st] =>
      destruct (wip_files_are_skipped rename_env work (str "promo")
                  [ordinary_file; wip_file] fs_rename st wip_file [Byte.x07]
                  (str "clip_") (str "_draft.mp4") "W"%char "i"%char "P"%char)
        as (_ & _ & Hfile & Hreads & Hcount)
  end.
  - reflexivity.
  - reflexivity.
  - right. reflexivity.
  - left. reflexivity.
  - right. reflexivity.
  - vm_compute. reflexivity.
  - split; [exact Hfile|]. split; [rewrite Hreads|rewrite Hcount];
      vm_compute; reflexivity.
Defined.

End Witnesses.

(** ** More on the parsers *)

Section ParserFacts.
Import Re Shape Markers.

Lemma search_from_Some (ic : bool) (n : nat) (r : re) (s : pystr) (g : caps) :
  search_from ic n r s = Some g ->
  exists p1 p2, s = p1 ++ p2 /\ run ic n r p2 [] accept = Some g.
Proof.
  induction s as [|x s IH]; cbn [search_from].
  - destruct (run ic n r [] [] accept) eqn:E; [|discriminate].
    intros [= <-]. exists [], []. auto.
  - destruct (run ic n r (x :: s) [] accept) eqn:E.
    + intros [= <-]. exists [], (x :: s). auto.
    + cbn [or_else]. intros H. destruct (IH H) as (p1 & p2 & -> & Hrun).
      exists (x :: p1), p2. auto.
Qed.

Lemma prefix_run_read (s : pystr) :
  option_map (fun g => group g 1) (match_ false QuickBatch.prefix_re s)
  = read_prefix s.
Proof.
  unfold match_, QuickBatch.prefix_re, read_prefix, read_run, cat, chr.
  cbn [fold_right run]. rewrite Nat.eqb_refl.
  rewrite rep_class_run.
  2: { intros x t g' Hx. rewrite cls_lit, (alpha_not "_" x); auto.
       rewrite <- cls_alpha. exact Hx. }
  rewrite (run_of_ext _ _ cls_alpha), (after_run_ext _ _ cls_alpha).
  destruct ((2 <=? length (run_of is_alpha s))
            && within (Some 2) (length (run_of is_alpha s))); [|reflexivity].
  cbn [mbind option_bind].
  destruct (after_run is_alpha s) as [|x t] eqn:Ea; [reflexivity|].
  rewrite cls_lit. cbn [expect].
  destruct (Ascii.eqb x "_"); [|reflexivity].
  unfold accept. cbn [option_map group Nat.eqb mbind option_bind].
  rewrite <- Ea, take_run. reflexivity.
Qed.

Lemma read_prefix_sound (s l : pystr) :
  read_prefix s = Some l ->
  exists a b, l = [a; b] /\ prefixed_by a b s.
Proof.
  unfold read_prefix. intros H.
  apply bind_Some in H as ([l' s1] & E & H). apply read_run_Some in E.
  apply bind_Some in H as (s2 & E2 & H). apply expect_Some in E2.
  injection H as <-. destruct E as (-> & Hl & Hlo & Hhi). subst s1.
  simpl in Hhi. apply Nat.leb_le in Hhi.
  destruct l' as [|a [|b [|c l']]]; simpl in Hlo, Hhi; try lia.
  exists a, b. split; [reflexivity|]. exists s2.
  inversion Hl as [|? ? Ha Hl']. inversion Hl' as [|? ? Hb _]. auto.
Qed.

Lemma read_prefix_complete (a b : ascii) (s : pystr) :
  prefixed_by a b s -> read_prefix s = Some [a; b].
Proof.
  intros (rest & -> & Ha & Hb). unfold read_prefix.
  change (a :: b :: "_" :: rest) with ([a; b] ++ "_" :: rest).
  assert (E : read_run is_alpha 2 (Some 2) ([a; b] ++ "_" :: rest)
              = Some ([a; b], "_" :: rest)).
  { apply read_run_app; [repeat constructor; auto|simpl; lia|reflexivity
                        |reflexivity]. }
  rewrite E. reflexivity.
Qed.

Lemma lower_letters (l : pystr) : letters l -> lowercase (lower l).
Proof.
  unfold letters, lowercase, lower. induction 1 as [|c l Hc Hl IH]; simpl.
  - constructor.
  - constructor; [|exact IH].
    destruct c as [[] [] [] [] [] [] [] []]; vm_compute in Hc;
      try discriminate Hc; reflexivity.
Qed.

Lemma lower_lowercase (l : pystr) : lowercase l -> lower l = l.
Proof.
  unfold lowercase, lower. induction 1 as [|c l Hc Hl IH]; simpl.
  - reflexivity.
  - rewrite IH. f_equal.
    destruct c as [[] [] [] [] [] [] [] []]; vm_compute in Hc;
      try discriminate Hc; reflexivity.
Qed.

Lemma lowercase_letters (l : pystr) : lowercase l -> letters l.
Proof.
  unfold lowercase, letters. intros H. induction H as [|c l Hc Hl IH].
  - constructor.
  - constructor; [|exact IH]. unfold is_alpha. rewrite Hc. reflexivity.
Qed.

(** What the parser of [QuickBatch.py] does when [re.search] finds no
    structured segment: the prefix pattern decides. *)
Lemma quickbatch_without_segment (filename : pystr) :
  (forall p1 p2 lang, stem filename = p1 ++ p2 -> ~ structured_at lang p2) ->
  QuickBatch.extract_language_prefix filename
  = match read_prefix (stem filename) with
    | Some l => lower l
    | None => str "en"
    end.
Proof.
  intros Hnone. unfold QuickBatch.extract_language_prefix. cbv zeta.
  rewrite format_re_eq, search_structured_none by exact Hnone.
  rewrite <- prefix_run_read.
  destruct (match_ false QuickBatch.prefix_re (stem filename)); reflexivity.
Qed.

End ParserFacts.

Section ParserExtras.
Import Re Shape Markers Samples.

(** X1. The language code returned by [extract_language_prefix] always has
    at least two characters, all of them lower-case ASCII letters. *)
Theorem language_code_is_lowercase (filename : pystr) :
  2 <= length (QuickBatch.extract_language_prefix filename)
  /\ lowercase (QuickBatch.extract_language_prefix filename).
Proof.
  unfold QuickBatch.extract_language_prefix. cbv zeta.
  destruct (search false QuickBatch.format_re (stem filename)) as [g|] eqn:Es.
  - unfold search in Es. apply search_from_Some in Es as (p1 & p2 & _ & Hrun).
    assert (Hread : read_structured None false p2 = Some (group g 2)).
    { rewrite <- (structured_run_read None false (length (stem filename))).
      rewrite <- format_re_eq, Hrun. reflexivity. }
    apply read_structured_sound in Hread
      as (d & w & h & rest & _ & _ & Hlen & Hl & _).
    split; [unfold lower; rewrite length_map; exact Hlen|].
    apply lower_letters, Hl.
  - pose proof (prefix_run_read (stem filename)) as Hp.
    destruct (match_ false QuickBatch.prefix_re (stem filename)) as [g|].
    + simpl in Hp. symmetry in Hp.
      apply read_prefix_sound in Hp as (a & b & -> & (rest & _ & Ha & Hb)).
      split; [simpl; lia|]. apply lower_letters. repeat constructor; auto.
    + split; [simpl; lia|]. repeat constructor.
Qed.

(** X2. When the stem contains no structured segment and begins with two
    ASCII letters followed by an underscore, [extract_language_prefix]
    returns these two letters in lower case. *)
Theorem prefix_pattern_decides (filename : pystr) (a b : ascii) :
  (forall p1 p2 lang, stem filename = p1 ++ p2 -> ~ structured_at lang p2) ->
  prefixed_by a b (stem filename) ->
  QuickBatch.extract_language_prefix filename = lower [a; b].
Proof.
  intros Hnone Hpre. rewrite quickbatch_without_segment by exact Hnone.
  rewrite (read_prefix_complete a b _ Hpre). reflexivity.
Qed.

Lemma prefix_pattern_decides_witness :
  QuickBatch.extract_language_prefix (str "RU_teaser.final.mp4") = str "ru".
Proof.
  apply (prefix_pattern_decides (str "RU_teaser.final.mp4") "R" "U").
  - intros p1 p2 lang.
    apply (none_anywhere_spec (read_structured None false) (structured_at lang));
      [apply structured_read|reflexivity].
  - exists (str "teaser.final"). repeat split; reflexivity.
Defined.

(** X3. When the stem contains no structured segment and does not begin
    with two ASCII letters followed by an underscore,
    [extract_language_prefix] returns the default [en]. *)
Theorem default_language_is_en (filename : pystr) :
  (forall p1 p2 lang, stem filename = p1 ++ p2 -> ~ structured_at lang p2) ->
  (forall a b, ~ prefixed_by a b (stem filename)) ->
  QuickBatch.extract_language_prefix filename = str "en".
Proof.
  intros Hnone Hpre. rewrite quickbatch_without_segment by exact Hnone.
  destruct (read_prefix (stem filename)) as [l|] eqn:El; [|reflexivity].
  apply read_prefix_sound in El as (a & b & _ & H).
  exfalso. exact (Hpre a b H).
Qed.

Lemma default_language_is_en_witness :
  QuickBatch.extract_language_prefix (str "fra_clip.mp4") = str "en".
Proof.
  apply default_language_is_en.
  - intros p1 p2 lang.
    apply (none_anywhere_spec (read_structured None false) (structured_at lang));
      [apply structured_read|reflexivity].
  - intros a b H. apply read_prefix_complete in H. vm_compute in H.
    discriminate H.
Defined.

End ParserExtras.

Section MarkerFacts.
Import Re Shape Markers.

Lemma video_run_read (n : nat) (s : pystr) :
  option_map (fun g => group g 1)
             (run false n QuickBatch.video_duration_re s [] accept)
  = read_video_marker s.
Proof.
  unfold QuickBatch.video_duration_re, read_video_marker, read_run, cat, chr,
    plus.
  cbn [fold_right run within]. rewrite andb_true_r.
  rewrite rep_class_run.
  2: { intros x t g' Hx. rewrite cls_lit, (digit_not "s" x); auto. }
  rewrite cls_digit. cbn [within]. rewrite andb_true_r.
  destruct (1 <=? length (run_of is_digit s)); [|reflexivity].
  cbn [mbind option_bind].
  destruct (after_run is_digit s) as [|c rest] eqn:Ea; [reflexivity|].
  rewrite cls_lit. cbn [expect].
  destruct (Ascii.eqb_spec c "s") as [->|]; [|reflexivity].
  unfold accept. cbn [option_map group Nat.eqb mbind option_bind].
  f_equal. pose proof (run_after is_digit s) as Hs. rewrite Ea in Hs.
  remember (run_of is_digit s) as d eqn:Ed. clear Ed Ea.
  assert (E : s = (d ++ ["s"]) ++ rest) by (rewrite <- app_assoc; exact Hs).
  replace (length s - length rest) with (length (d ++ ["s"]))
    by (rewrite E, !length_app; simpl; lia).
  rewrite E. apply take_app_length.
Qed.

Lemma read_video_marker_sound (s m : pystr) :
  read_video_marker s = Some m -> video_marker_at s.
Proof.
  unfold read_video_marker. intros H.
  apply bind_Some in H as ([d s1] & E & H). apply read_run_Some in E.
  apply bind_Some in H as (s2 & E2 & _). apply expect_Some in E2.
  destruct E as (-> & Hd & Hd1 & _). subst s1.
  exists d, s2. split; [reflexivity|].
  split; [|exact Hd]. destruct d; [simpl in Hd1; lia|discriminate].
Qed.

Lemma read_video_marker_complete (d rest : pystr) :
  digits d -> read_video_marker (d ++ "s" :: rest) = Some (d ++ str "s").
Proof.
  intros [Hd0 Hd]. unfold read_video_marker.
  assert (E : read_run is_digit 1 None (d ++ "s" :: rest)
              = Some (d, "s" :: rest)).
  { apply read_run_app; [exact Hd| |reflexivity|reflexivity].
    destruct d; [congruence|simpl; lia]. }
  rewrite E. reflexivity.
Qed.

Lemma video_marker_read (s : pystr) :
  video_marker_at s -> read_video_marker s <> None.
Proof.
  intros (d & rest & -> & Hd).
  rewrite (read_video_marker_complete d rest Hd). discriminate.
Qed.

Lemma video_marker_found (filename pre N post : pystr) :
  stem filename = pre ++ N ++ "s" :: post -> digits N ->
  leftmost_video_marker pre (N ++ "s" :: post) ->
  QuickBatch.extract_duration_from_video_name filename = Some (N ++ str "s").
Proof.
  intros Hstem HN Hleft.
  unfold QuickBatch.extract_duration_from_video_name. cbv zeta.
  rewrite Hstem. unfold search.
  pose proof (read_video_marker_complete N post HN) as Hread.
  rewrite <- video_run_read with (n := length (pre ++ N ++ "s" :: post))
    in Hread.
  apply option_map_Some in Hread as (g & Hg & Hgrp).
  rewrite search_from_skip.
  - rewrite (search_from_here _ _ _ _ _ Hg), Hgrp. reflexivity.
  - intros p1 p2 E Hp2.
    apply option_map_None with (f := fun g => group g 1).
    rewrite video_run_read.
    destruct (read_video_marker (p2 ++ N ++ "s" :: post)) as [m|] eqn:Em;
      [|reflexivity].
    exfalso. apply (Hleft p1 p2 E Hp2).
    apply (read_video_marker_sound _ _ Em).
Qed.

(** The stem of a name that ends in [.mp4]. *)
Lemma rfind_dot_app (x t : pystr) :
  rfind "." t = None -> rfind "." (x ++ "." :: t) = Some (length x).
Proof.
  intros Ht. induction x as [|c x IH]; simpl.
  - rewrite Ht. reflexivity.
  - rewrite IH. reflexivity.
Qed.

Lemma stem_mp4 (x : pystr) : x <> [] -> stem (x ++ str ".mp4") = x.
Proof.
  intros Hx. unfold stem, split_ext.
  change (str ".mp4") with ("." :: str "mp4").
  rewrite rfind_dot_app by reflexivity.
  assert (H0 : (0 <? length x) = true).
  { apply Nat.ltb_lt. destruct x; [congruence|simpl; lia]. }
  assert (H1 : (length x <? length (x ++ "." :: str "mp4") - 1) = true).
  { apply Nat.ltb_lt. rewrite length_app. simpl. lia. }
  rewrite H0, H1. simpl. apply take_app_length.
Qed.

(** The decimal digits of a number. *)
Lemma string_of_uint_digits (d : Decimal.uint) :
  Forall (fun c => is_digit c = true) (str (NilEmpty.string_of_uint d)).
Proof. induction d; simpl; constructor; auto. Qed.

Lemma fmt_int_digits (n : nat) : digits (fmt_int n).
Proof.
  split; [|apply string_of_uint_digits].
  unfold fmt_int. intros H.
  assert (E : NilEmpty.string_of_uint (Nat.to_uint n) = ""%string).
  { apply str_inj. exact H. }
  pose proof (NilEmpty.usu (Nat.to_uint n)) as Hu. rewrite E in Hu.
  simpl in Hu. injection Hu as Hu.
  pose proof (DecimalNat.Unsigned.of_to n) as Hn. rewrite <- Hu in Hn.
  simpl in Hn. subst n. discriminate Hu.
Qed.

End MarkerFacts.

Section MarkerExtras.
Import Re Shape Markers Samples.

(** X4. [extract_duration_from_video_name] returns the digits of the leftmost
    place of the stem where digits are followed by a lower-case [s], with
    that [s]; a stem without such a place gives [None].  An upper-case [S]
    does not make a marker for a video. *)
Theorem video_duration_marker_found (filename : pystr) :
  (forall pre N post,
      stem filename = pre ++ N ++ "s" :: post -> digits N ->
      leftmost_video_marker pre (N ++ "s" :: post) ->
      QuickBatch.extract_duration_from_video_name filename
      = Some (N ++ str "s"))
  /\ ((forall p1 p2, stem filename = p1 ++ p2 -> ~ video_marker_at p2) ->
      QuickBatch.extract_duration_from_video_name filename = None).
Proof.
  split.
  - intros pre N post. apply video_marker_found.
  - intros Hnone.
    unfold QuickBatch.extract_duration_from_video_name. cbv zeta.
    unfold search. rewrite search_from_none; [reflexivity|].
    intros p1 p2 E. apply option_map_None with (f := fun g => group g 1).
    rewrite video_run_read.
    destruct (read_video_marker p2) as [m|] eqn:Em; [|reflexivity].
    exfalso. apply (Hnone p1 p2 E). apply (read_video_marker_sound _ _ Em).
Qed.

Lemma video_duration_marker_found_witness :
  QuickBatch.extract_duration_from_video_name (str "take2_15s_cut.mp4")
  = Some (str "15s")
  /\ QuickBatch.extract_duration_from_video_name (str "take2_15S_cut.mp4")
     = None.
Proof.
  split.
  - apply (proj1 (video_duration_marker_found (str "take2_15s_cut.mp4"))
                 (str "take2_") (str "15") (str "_cut")).
    + reflexivity.
    + split; [discriminate|repeat constructor].
    + intros p1 p2.
      apply (none_before_spec read_video_marker video_marker_at);
        [apply video_marker_read|reflexivity].
  - apply (proj2 (video_duration_marker_found (str "take2_15S_cut.mp4"))).
    intros p1 p2.
    apply (none_anywhere_spec read_video_marker video_marker_at);
      [apply video_marker_read|reflexivity].
Defined.

(** X5. Round trip of the language: the name made by [generate_new_filename]
    from a lower-case language code of at least two letters and a resolution
    [<digits>x<digits>] is parsed back to that code by
    [extract_language_prefix], provided no structured segment begins inside
    the custom name. *)
Theorem new_filename_keeps_language
        (custom_name lang_code width height : pystr) (duration : nat) :
  2 <= length lang_code -> lowercase lang_code ->
  digits width -> digits height ->
  leftmost_structured
    custom_name
    (str "_" ++ fmt_int duration ++ str "s_" ++ lang_code ++ str "_"
         ++ width ++ str "x" ++ height) ->
  QuickBatch.extract_language_prefix
    (QuickBatch.generate_new_filename custom_name duration lang_code
                                      (width ++ str "x" ++ height))
  = lang_code.
Proof.
  intros Hlen Hlow Hw Hh Hleft.
  rewrite <- (lower_lowercase lang_code Hlow) at 2.
  apply (quickbatch_reads_leftmost
           _ custom_name
           (str "_" ++ fmt_int duration ++ str "s_" ++ lang_code ++ str "_"
                ++ width ++ str "x" ++ height) lang_code).
  - unfold QuickBatch.generate_new_filename, QuickBatch.format_duration.
    cbv zeta.
    replace (custom_name ++ str "_" ++ (fmt_int duration ++ str "s")
               ++ str "_" ++ lang_code ++ str "_"
               ++ (width ++ str "x" ++ height) ++ str ".mp4")
      with ((custom_name ++ str "_" ++ fmt_int duration ++ str "s_"
                ++ lang_code ++ str "_" ++ width ++ str "x" ++ height)
              ++ str ".mp4").
    + apply stem_mp4. destruct custom_name; discriminate.
    + unfold str. simpl. repeat (rewrite <- app_assoc; simpl). reflexivity.
  - apply (read_structured_complete None false _ lang_code
             (fmt_int duration) width height []);
      auto; try discriminate.
    + rewrite app_nil_r. reflexivity.
    + apply fmt_int_digits.
    + apply lowercase_letters, Hlow.
  - exact Hleft.
Qed.

Lemma new_filename_keeps_language_witness :
  QuickBatch.extract_language_prefix
    (QuickBatch.generate_new_filename (str "fr_promo") 90 (str "de")
                                      (str "1080" ++ str "x" ++ str "1920"))
  = str "de".
Proof.
  apply new_filename_keeps_language.
  - simpl. lia.
  - repeat constructor.
  - split; [discriminate|repeat constructor].
  - split; [discriminate|repeat constructor].
  - intros p1 p2 lang.
    apply (none_before_spec (read_structured None false) (structured_at lang));
      [apply structured_read|reflexivity].
Defined.

(** X6. Round trip of the duration: the name made by [generate_new_filename]
    for a duration of [n] seconds, a language code of ASCII letters and a
    resolution [<digits>x<digits>] carries the video marker [<n>s], provided
    no place where digits are followed by [s] begins inside the custom
    name. *)
Theorem new_filename_keeps_duration
        (custom_name lang_code width height : pystr) (duration : nat) :
  letters lang_code -> digits width -> digits height ->
  leftmost_video_marker
    custom_name
    (str "_" ++ fmt_int duration ++ str "s_" ++ lang_code ++ str "_"
         ++ width ++ str "x" ++ height) ->
  QuickBatch.extract_duration_from_video_name
    (QuickBatch.generate_new_filename custom_name duration lang_code
                                      (width ++ str "x" ++ height))
  = Some (QuickBatch.format_duration duration).
Proof.
  intros _ _ _ Hleft.
  apply (video_marker_found _ (custom_name ++ str "_") (fmt_int duration)
           (str "_" ++ lang_code ++ str "_" ++ width ++ str "x" ++ height)).
  - unfold QuickBatch.generate_new_filename, QuickBatch.format_duration.
    cbv zeta.
    replace (custom_name ++ str "_" ++ (fmt_int duration ++ str "s")
               ++ str "_" ++ lang_code ++ str "_"
               ++ (width ++ str "x" ++ height) ++ str ".mp4")
      with (((custom_name ++ str "_") ++ fmt_int duration
               ++ "s" :: str "_" ++ lang_code ++ str "_"
               ++ width ++ str "x" ++ height)
              ++ str ".mp4").
    + apply stem_mp4. destruct custom_name; discriminate.
    + unfold str. simpl. repeat (rewrite <- app_assoc; simpl). reflexivity.
  - apply fmt_int_digits.
  - intros p1 p2 E Hp2 Hm.
    destruct (exists_last Hp2) as (q & c & ->).
    rewrite app_assoc in E. apply app_inj_tail in E as [-> <-].
    destruct q as [|c0 q].
    + destruct Hm as (d & rest & E & [Hd0 Hd]).
      destruct d as [|x d]; [congruence|].
      simpl in E. injection E as <- _. inversion Hd as [|? ? Hx _].
      discriminate Hx.
    + apply (Hleft p1 (c0 :: q) eq_refl ltac:(discriminate)).
      rewrite <- app_assoc in Hm. exact Hm.
Qed.

Lemma new_filename_keeps_duration_witness :
  QuickBatch.extract_duration_from_video_name
    (QuickBatch.generate_new_filename (str "take2") 90 (str "en")
                                      (str "1080x1920"))
  = Some (str "90s").
Proof.
  apply (new_filename_keeps_duration (str "take2") (str "en")
           (str "1080") (str "1920") 90).
  - repeat constructor.
  - split; [discriminate|repeat constructor].
  - split; [discriminate|repeat constructor].
  - intros p1 p2.
    apply (none_before_spec read_video_marker video_marker_at);
      [apply video_marker_read|reflexivity].
Defined.

End MarkerExtras.

(** ** More on grouping and matching *)

Section GroupingFacts.
Import Matching.

Lemma dict_get_default_append (d : dict) (k k' : option pystr) (x : path) :
  dict_get_default (dict_append d k' x) k
  = dict_get_default d k ++ (if bool_decide (k' = k) then [x] else []).
Proof.
  unfold dict_get_default. induction d as [|[k0 l] d IH]; simpl.
  - destruct (decide (k = k')) as [->|Hne].
    + rewrite bool_decide_eq_true_2 by reflexivity. reflexivity.
    + rewrite bool_decide_eq_false_2 by congruence. reflexivity.
  - destruct (decide (k' = k0)) as [->|Hne]; simpl.
    + destruct (decide (k = k0)) as [->|Hne'].
      * rewrite bool_decide_eq_true_2 by reflexivity. reflexivity.
      * rewrite bool_decide_eq_false_2 by congruence.
        rewrite app_nil_r. reflexivity.
    + destruct (decide (k = k0)) as [->|Hne'].
      * rewrite bool_decide_eq_false_2 by congruence.
        rewrite app_nil_r. reflexivity.
      * exact IH.
Qed.

Lemma values_dict_append_nonempty (d : dict) (k : option pystr) (x : path) :
  Forall (fun l => l <> []) (values d) ->
  Forall (fun l => l <> []) (values (dict_append d k x)).
Proof.
  unfold values. induction d as [|[k0 l] d IH]; simpl; intros H.
  - constructor; [discriminate|constructor].
  - inversion H as [|? ? Hl Hd]; subst.
    destruct (decide (k = k0)); simpl; constructor; auto.
    destruct l; discriminate.
Qed.

Lemma concat_values_dict_append (d : dict) (k : option pystr) (x : path) :
  concat (values (dict_append d k x)) ≡ₚ x :: concat (values d).
Proof.
  unfold values. induction d as [|[k0 l] d IH]; simpl.
  - reflexivity.
  - destruct (decide (k = k0)); simpl.
    + rewrite <- app_assoc. simpl. symmetry. apply Permutation_middle.
    + rewrite IH. symmetry. apply Permutation_middle.
Qed.

(** The loop of the two [find_] functions, from any dictionary. *)
Lemma group_from (extract : pystr -> option pystr) (files : list path)
      (d : dict) :
  let d' := fold_left (fun d f => dict_append d (extract (name f)) f) files d in
  (forall k,
      dict_get_default d' k
      = dict_get_default d k
          ++ List.filter (fun f => bool_decide (extract (name f) = k)) files)
  /\ (Forall (fun l => l <> []) (values d) ->
      Forall (fun l => l <> []) (values d'))
  /\ concat (values d') ≡ₚ concat (values d) ++ files.
Proof.
  revert d. induction files as [|f files IH]; intros d; simpl.
  - split; [intros k; rewrite app_nil_r; reflexivity|].
    split; [auto|rewrite app_nil_r; reflexivity].
  - destruct (IH (dict_append d (extract (name f)) f)) as (Hget & Hne & Hperm).
    split; [|split].
    + intros k. rewrite Hget, dict_get_default_append, <- app_assoc.
      f_equal. destruct (bool_decide (extract (name f) = k)); reflexivity.
    + intros H. apply Hne, values_dict_append_nonempty, H.
    + rewrite Hperm, concat_values_dict_append. simpl.
      apply Permutation_middle.
Qed.

Lemma dict_get_in_values (d : dict) (k : option pystr) (l : list path) :
  dict_get d k = Some l -> In l (values d).
Proof.
  unfold values. induction d as [|[k0 l0] d IH]; simpl; [discriminate|].
  destruct (decide (k = k0)); [intros [= <-]; auto|auto].
Qed.

Lemma dict_get_default_in (d : dict) (k : option pystr) (x : path) :
  In x (dict_get_default d k) -> In x (concat (values d)).
Proof.
  unfold dict_get_default. destruct (dict_get d k) as [l|] eqn:E; [|intros []].
  intros Hx. apply in_concat. exists l. split; [|exact Hx].
  apply (dict_get_in_values _ _ _ E).
Qed.

Lemma dict_get_sentinel_only (d : dict) :
  d <> [] -> concrete_keys d = [] -> exists l, dict_get d None = Some l.
Proof.
  destruct d as [|[[k|] l] d]; [congruence| |].
  - intros _ H. unfold concrete_keys in H. simpl in H. discriminate H.
  - intros _ _. exists l. reflexivity.
Qed.

(** The matching yields pairs for all dictionaries, and the pairs are made
    of files of the dictionaries. *)
Lemma matching_pairs_from (audio_by_duration video_by_duration : dict) :
  exists pairs,
    merge_pairs audio_by_duration video_by_duration = Some pairs
    /\ forall v a, In (v, a) pairs ->
                   In a (concat (values audio_by_duration))
                   /\ In v (concat (values video_by_duration)).
Proof.
  destruct audio_by_duration as [|ga A];
    [exists []; split; [reflexivity|intros v a []]|].
  destruct video_by_duration as [|gv V];
    [exists []; split; [reflexivity|intros v a []]|].
  unfold merge_pairs.
  destruct (length (concrete_keys (ga :: A)) =? 0) eqn:E0.
  - apply Nat.eqb_eq, length_zero_iff_nil in E0.
    destruct (dict_get_sentinel_only (ga :: A)) as [l Hl];
      [discriminate|exact E0|].
    rewrite Hl. cbn [mbind option_bind]. eexists. split; [reflexivity|].
    intros v a Hin. apply in_cross in Hin as [Ha Hv]. split; [|exact Hv].
    apply in_concat. exists l. split; [|exact Ha].
    apply (dict_get_in_values _ _ _ Hl).
  - destruct ((length (concrete_keys (ga :: A)) =? 1)
              && negb (dict_mem (ga :: A) None)) eqn:E1.
    + apply andb_true_iff in E1 as [E1 _]. apply Nat.eqb_eq in E1.
      destruct (concrete_keys (ga :: A)) as [|d [|d' ks]] eqn:Ek;
        try discriminate E1.
      assert (Hd : In d (concrete_keys (ga :: A))) by (rewrite Ek; left; auto).
      apply in_concrete_keys in Hd as [l Hl].
      cbn [head mbind option_bind]. rewrite Hl. cbn [mbind option_bind].
      eexists. split; [reflexivity|].
      intros v a Hin. apply in_cross in Hin as [Ha Hv]. split.
      * apply in_concat. exists l. split; [|exact Ha].
        apply (dict_get_in_values _ _ _ Hl).
      * destruct (dict_mem (gv :: V) None);
          [apply in_app_or in Hv as [Hv|Hv]|];
          apply (dict_get_default_in _ _ _ Hv).
    + rewrite (mapM_total _
                 (fun duration =>
                    cross (dict_get_default (ga :: A) (Some duration))
                          (dict_get_default (gv :: V) (Some duration)))).
      * cbn [mbind option_bind]. eexists. split; [reflexivity|].
        intros v a Hin. apply in_concat in Hin as (ps & Hps & Hin).
        apply in_map_iff in Hps as (d & <- & _).
        apply in_cross in Hin as [Ha Hv].
        split; eapply dict_get_default_in; eassumption.
      * intros d Hd. apply in_concrete_keys in Hd as [l Hl].
        unfold dict_get_default. rewrite Hl. reflexivity.
Qed.

End GroupingFacts.

Section GroupingExtras.
Import Matching Samples.

(** X7. The grouping of [find_audio_files] and
    [find_video_files_in_subfolders] is a stable partition: the group of a
    marker (the sentinel included) holds exactly the files with this marker,
    in the order of discovery, no group is empty and no key occurs twice. *)
Theorem grouping_is_stable_partition
        (extract : pystr -> option pystr) (files : list path) :
  (forall k,
      dict_get_default (group_by_duration extract files) k
      = List.filter (fun f => bool_decide (extract (name f) = k)) files)
  /\ Forall (fun l => l <> []) (values (group_by_duration extract files))
  /\ NoDup (keys (group_by_duration extract files)).
Proof.
  destruct (group_from extract files []) as (Hget & Hne & _).
  split; [|split].
  - intros k. unfold group_by_duration. rewrite (Hget k). reflexivity.
  - apply Hne. constructor.
  - apply group_by_duration_nodup.
Qed.

(** X8. Grouping neither loses nor duplicates a file: the groups together
    are a permutation of the files found, so that the totals printed by
    [sound_merge_mode] are the numbers of files found. *)
Theorem grouping_keeps_every_file (wav_files video_files : list path) :
  concat (values (find_audio_files wav_files)) ≡ₚ wav_files
  /\ concat (values (find_video_files_in_subfolders video_files))
     ≡ₚ video_files
  /\ length (concat (values (find_audio_files wav_files)))
     = length wav_files
  /\ length (concat (values (find_video_files_in_subfolders video_files)))
     = length video_files.
Proof.
  assert (H : forall extract files,
             concat (values (group_by_duration extract files)) ≡ₚ files).
  { intros extract files.
    destruct (group_from extract files []) as (_ & _ & Hperm). exact Hperm. }
  unfold find_audio_files, find_video_files_in_subfolders.
  repeat split; try apply H; apply Permutation_length, H.
Qed.

(** X9. The dictionary accesses of [sound_merge_mode] never raise
    [KeyError]: for all dictionaries the matching yields a list of pairs, and
    every pair is made of a video file of the video dictionary and an audio
    file of the audio dictionary. *)
Theorem matching_never_fails (audio_by_duration video_by_duration : dict) :
  exists pairs,
    merge_pairs audio_by_duration video_by_duration = Some pairs
    /\ forall v a, In (v, a) pairs ->
                   In a (concat (values audio_by_duration))
                   /\ In v (concat (values video_by_duration)).
Proof. apply matching_pairs_from. Qed.

End GroupingExtras.

(** ** More on the safe replace *)

Section ReplaceMore.
Import Replace.

Local Ltac leaf2 :=
  cbv zeta; repeat split; intros; simplify_map_eq; eauto; try congruence.

Local Ltac failed2 :=
  let H := fresh "H" in
  let Hfr := fresh "Hfr" in
  intros H; apply handler_spec in H as (Hfr & [[-> Hgone]|(-> & Hcl & ->)]);
  cbv zeta;
  (repeat split; intros; simplify_map_eq; eauto; try congruence;
   try match goal with
       | Hs : is_Some _ |- _ => destruct Hs; congruence
       end).

(** How a call ends, by cases on the environment: an exception escapes only
    from the deletion in the handler, a call that returns leaves no
    temporary file of its own, and with an encoder that succeeds, a free
    temporary name, an existing video and no refusal the call succeeds. *)
Lemma merge_ends (e : env) (v a : path) (fs : FS) (o : outcome) (fs' : FS) :
  merge_audio_video e v a fs = (o, fs') ->
  let tp := temp_path_of e v in
  (o = Raised -> cleanup_fails e = true)
  /\ (fs !! tp = None -> o <> Raised -> fs' !! tp = None)
  /\ (forall out, tmp_fails e = false -> fs !! tp = None ->
                  encoder e = EncodeOk out -> mkdir_fails e = false ->
                  unlink_fails e = false -> backup_move_fails e = false ->
                  commit_move_fails e = false -> is_Some (fs !! v) ->
                  o = Returned true).
Proof.
  pose proof (backup_path_ne_video v) as Hbv.
  pose proof (temp_path_ne_backup e v) as Htb.
  unfold merge_audio_video, named_temporary_file. cbv zeta.
  change (parent v / tmp_name e)%path with (temp_path_of e v).
  remember (temp_path_of e v) as tp eqn:Etp.
  remember (backup_path_of v) as bp eqn:Ebp.
  destruct (tmp_fails e) eqn:Etf; [intros [= <- <-]; solve [leaf2]|].
  destruct (fs !! tp) eqn:Htp; [intros [= <- <-]; solve [leaf2]|].
  unfold merge_body, ffmpeg, create_backup_folder, bind, ret, mkdir, exists_.
  destruct (encoder e) as [out|[partial|]|] eqn:Eenc.
  2-4: solve [failed2].
  destruct (mkdir_fails e) eqn:Emk; [solve [failed2]|].
  change (backup_lang_dir v / name v)%path with (backup_path_of v).
  rewrite <- Ebp. rewrite lookup_insert_ne, lookup_insert_ne by exact Htb.
  destruct (decide (tp = v)) as [->|Ntv].
  - destruct (fs !! bp) as [b|] eqn:Hb; unfold unlink, move.
    + destruct (unlink_fails e) eqn:Eun; [solve [failed2]|].
      rewrite lookup_insert_eq.
      destruct (commit_move_fails e) eqn:Ecm; [solve [failed2]|].
      rewrite lookup_delete_eq.
      solve [failed2].
    + destruct (backup_move_fails e) eqn:Ebm; [solve [failed2]|].
      rewrite lookup_insert_eq.
      destruct (commit_move_fails e) eqn:Ecm; [solve [failed2]|].
      rewrite lookup_insert_ne, lookup_delete_eq by congruence.
      solve [failed2].
  - destruct (fs !! bp) as [b|] eqn:Hb; unfold unlink, move.
    + destruct (unlink_fails e) eqn:Eun; [solve [failed2]|].
      rewrite !lookup_insert_ne by exact Ntv.
      destruct (fs !! v) as [orig|] eqn:Hv.
      2: solve [failed2].
      destruct (commit_move_fails e) eqn:Ecm; [solve [failed2]|].
      rewrite lookup_delete_ne, lookup_insert_eq by congruence.
      intros [= <- <-]. solve [leaf2].
    + destruct (backup_move_fails e) eqn:Ebm; [solve [failed2]|].
      rewrite !lookup_insert_ne by exact Ntv.
      destruct (fs !! v) as [orig|] eqn:Hv.
      2: solve [failed2].
      destruct (commit_move_fails e) eqn:Ecm; [solve [failed2]|].
      rewrite lookup_insert_ne, lookup_delete_ne, lookup_insert_eq
        by congruence.
      intros [= <- <-]. solve [leaf2].
Qed.

End ReplaceMore.

Section ReplaceMoreFacts.
Import Replace.

Lemma parent_temp_path (e : env) (v : path) :
  parent (temp_path_of e v) = parent v.
Proof. unfold temp_path_of. apply parent_join. discriminate. Qed.

(** A call changes nothing outside the directory of the video, the backup
    path apart. *)
Lemma merge_frame (e : env) (v a : path) (fs : FS) (o : outcome) (fs' : FS)
      (q : path) :
  merge_audio_video e v a fs = (o, fs') ->
  parent q <> parent v -> q <> backup_path_of v -> fs' !! q = fs !! q.
Proof.
  intros H Hp Hb.
  destruct (merge_spec _ _ _ _ _ _ H) as (_ & _ & _ & _ & _ & Hframe).
  apply Hframe; [|congruence|exact Hb].
  intros ->. apply Hp. apply parent_temp_path.
Qed.

Lemma merge_all_frame (envs : nat -> env) (pairs : list (path * path))
      (i n : nat) (fs : FS) (r : mode_result) (fs' : FS) (q : path) :
  merge_all envs i pairs n fs = (r, fs') ->
  (forall v a, In (v, a) pairs ->
               parent q <> parent v /\ q <> backup_path_of v) ->
  fs' !! q = fs !! q.
Proof.
  revert i n fs. induction pairs as [|[v a] pairs IH]; intros i n fs; simpl.
  - intros [= <- <-] _. reflexivity.
  - intros H Hq.
    destruct (merge_audio_video (envs i) v a fs) as [o fs1] eqn:Hm.
    assert (E : fs1 !! q = fs !! q).
    { destruct (Hq v a) as [Hp Hb]; [left; reflexivity|].
      apply (merge_frame _ _ _ _ _ _ _ Hm Hp Hb). }
    destruct o as [[|]|].
    + rewrite <- E. apply (IH _ _ _ H). intros v' a' Hin. apply (Hq v' a'). right. exact Hin.
    + rewrite <- E. apply (IH _ _ _ H). intros v' a' Hin. apply (Hq v' a'). right. exact Hin.
    + injection H as <- <-. exact E.
Qed.

Lemma merge_all_ends (envs : nat -> env) (pairs : list (path * path))
      (i n : nat) (fs : FS) :
  (forall j, cleanup_fails (envs j) = false) ->
  exists m, fst (merge_all envs i pairs n fs) = Finished m
            /\ n <= m <= n + length pairs.
Proof.
  intros Hcl. revert i n fs.
  induction pairs as [|[v a] pairs IH]; intros i n fs; simpl.
  - exists n. split; [reflexivity|lia].
  - destruct (merge_audio_video (envs i) v a fs) as [o fs1] eqn:Hm.
    destruct o as [[|]|].
    + destruct (IH (S i) (n + 1) fs1) as (m & Hfin & Hle).
      exists m. split; [exact Hfin|lia].
    + destruct (IH (S i) n fs1) as (m & Hfin & Hle).
      exists m. split; [exact Hfin|lia].
    + destruct (merge_ends _ _ _ _ _ _ Hm) as (Hr & _).
      rewrite Hcl in Hr. discriminate (Hr eq_refl).
Qed.

Lemma group_by_duration_nil (extract : pystr -> option pystr)
      (files : list path) :
  Matching.group_by_duration extract files = [] <-> files = [].
Proof.
  split; [|intros ->; reflexivity].
  intros H. destruct (group_from extract files []) as (_ & _ & Hperm).
  cbv zeta in Hperm. fold (Matching.group_by_duration extract files) in Hperm.
  rewrite H in Hperm. simpl in Hperm. symmetry in Hperm.
  apply Permutation_nil_r in Hperm. exact Hperm.
Qed.

End ReplaceMoreFacts.

Section ReplaceExtras.
Import Replace Samples MoreSamples.

(** X10. Whatever the encoder does and whatever operations are refused, a
    sequence of calls of [merge_audio_video] on a video that has no backup
    yet never loses its content: afterwards the original is the backup, or
    there is still no backup and the original is still the video. *)
Theorem original_is_never_lost
        (calls : list (env * path)) (video_path : path) (fs : FS)
        (os : list outcome) (fs' : FS) (original : bytes) :
  merge_repeatedly calls video_path fs = (os, fs') ->
  fs !! backup_path_of video_path = None ->
  fs !! video_path = Some original ->
  fs' !! backup_path_of video_path = Some original
  \/ (fs' !! backup_path_of video_path = None
      /\ fs' !! video_path = Some original).
Proof.
  revert fs os. induction calls as [|[e a] calls IH]; intros fs os; simpl.
  - intros [= <- <-] Hb Hv. auto.
  - destruct (merge_audio_video e video_path a fs) as [o fs1] eqn:H1.
    destruct (merge_repeatedly calls video_path fs1) as [os1 fs2] eqn:H2.
    intros [= <- <-] Hb Hv.
    destruct (merge_spec _ _ _ _ _ _ H1) as (_ & _ & _ & Hstep & _).
    destruct (Hstep _ Hb Hv) as [Hb1|[Hb1 Hv1]].
    + left. apply (merge_repeatedly_keeps_backup _ _ _ _ _ _ H2 Hb1).
    + apply (IH _ _ H2 Hb1 Hv1).
Qed.

Lemma original_is_never_lost_witness :
  snd (merge_repeatedly [(env_all_fail, sample_audio); (env_ok, sample_audio)]
                        sample_video fs_fresh)
  !! backup_path_of sample_video = Some original_bytes.
Proof.
  destruct (original_is_never_lost
              [(env_all_fail, sample_audio); (env_ok, sample_audio)]
              sample_video fs_fresh
              (fst (merge_repeatedly
                      [(env_all_fail, sample_audio); (env_ok, sample_audio)]
                      sample_video fs_fresh))
              (snd (merge_repeatedly
                      [(env_all_fail, sample_audio); (env_ok, sample_audio)]
                      sample_video fs_fresh))
              original_bytes) as [H|[H _]].
  - apply surjective_pairing.
  - reflexivity.
  - reflexivity.
  - exact H.
  - vm_compute in H. discriminate H.
Defined.

(** X11. An exception escapes from [merge_audio_video] only when the
    deletion of the temporary file in a handler is refused; and when the
    call returns, with [True] or with [False], no file is left at its
    temporary path. *)
Theorem no_temporary_file_is_left
        (e : env) (video_path audio_path : path) (fs : FS)
        (o : outcome) (fs' : FS) :
  merge_audio_video e video_path audio_path fs = (o, fs') ->
  fs !! temp_path_of e video_path = None ->
  (o = Raised -> cleanup_fails e = true)
  /\ (forall b, o = Returned b -> fs' !! temp_path_of e video_path = None).
Proof.
  intros H Htp. destruct (merge_ends _ _ _ _ _ _ H) as (Hr & Hgone & _).
  split; [exact Hr|]. intros b ->. apply Hgone; [exact Htp|discriminate].
Qed.

Lemma no_temporary_file_is_left_witness :
  snd (merge_audio_video env_commit_fails sample_video sample_audio
                         fs_backed_up)
  !! temp_path_of env_commit_fails sample_video = None.
Proof.
  destruct (no_temporary_file_is_left
              env_commit_fails sample_video sample_audio fs_backed_up
              (fst (merge_audio_video env_commit_fails sample_video
                                      sample_audio fs_backed_up))
              (snd (merge_audio_video env_commit_fails sample_video
                                      sample_audio fs_backed_up)))
    as [_ H].
  - apply surjective_pairing.
  - reflexivity.
  - apply (H false). reflexivity.
Defined.

(** X12. When the temporary name is free, the encoder succeeds, the video
    exists and no operation is refused, [merge_audio_video] returns [True]:
    the video then holds the encoder's output, the temporary file is gone,
    and the backup holds what it held before or, if there was none, the
    video as it was. *)
Theorem merge_succeeds
        (e : env) (video_path audio_path : path) (fs : FS)
        (out original : bytes) :
  tmp_fails e = false -> fs !! temp_path_of e video_path = None ->
  encoder e = EncodeOk out -> mkdir_fails e = false ->
  unlink_fails e = false -> backup_move_fails e = false ->
  commit_move_fails e = false -> fs !! video_path = Some original ->
  exists fs',
    merge_audio_video e video_path audio_path fs = (Returned true, fs')
    /\ fs' !! video_path = Some out
    /\ fs' !! temp_path_of e video_path = None
    /\ fs' !! backup_path_of video_path
       = Some (default original (fs !! backup_path_of video_path)).
Proof.
  intros Htf Htp Henc Hmk Hun Hbm Hcm Hv.
  destruct (merge_audio_video e video_path audio_path fs) as [o fs'] eqn:H.
  destruct (merge_ends _ _ _ _ _ _ H) as (_ & _ & Hok).
  assert (o = Returned true) as -> by (eapply Hok; eauto).
  destruct (merge_spec _ _ _ _ _ _ H) as (Hkeep & Hres & Hfirst & _).
  destruct (Hres eq_refl) as (out' & Henc' & Hv' & Htp').
  exists fs'. split; [reflexivity|]. split; [congruence|].
  split; [exact Htp'|].
  destruct (fs !! backup_path_of video_path) as [b|] eqn:Hb; simpl.
  - apply Hkeep. reflexivity.
  - destruct (Hfirst eq_refl eq_refl) as (orig & Ho & Hb'). congruence.
Qed.

Lemma merge_succeeds_witness :
  fst (merge_audio_video env_ok sample_video sample_audio fs_backed_up)
  = Returned true.
Proof.
  destruct (merge_succeeds env_ok sample_video sample_audio fs_backed_up
                           encoded_bytes second_bytes
                           eq_refl eq_refl eq_refl eq_refl
                           eq_refl eq_refl eq_refl eq_refl)
    as (fs' & H & _).
  rewrite H. reflexivity.
Defined.

(** X13. [sound_merge_mode] changes nothing outside the directories of the
    video files, their backup paths apart; the audio files of the current
    directory, for example, are never modified. *)
Theorem sound_merge_mode_frame
        (ffmpeg_found : bool) (wav_files video_files : list path)
        (envs : nat -> env) (fs : FS) (r : mode_result) (fs' : FS) (q : path) :
  sound_merge_mode ffmpeg_found wav_files video_files envs fs = (r, fs') ->
  (forall v, In v video_files ->
             parent q <> parent v /\ q <> backup_path_of v) ->
  fs' !! q = fs !! q.
Proof.
  unfold sound_merge_mode. intros H Hq.
  destruct ffmpeg_found; simpl in H; [|injection H as <- <-; reflexivity].
  destruct (Matching.find_audio_files wav_files) as [|ga A] eqn:EA;
    [injection H as <- <-; reflexivity|].
  destruct (Matching.find_video_files_in_subfolders video_files)
    as [|gv V] eqn:EV; [injection H as <- <-; reflexivity|].
  destruct (matching_pairs_from (ga :: A) (gv :: V)) as (pairs & Hp & Hin).
  rewrite Hp in H. apply (merge_all_frame _ _ _ _ _ _ _ _ H).
  intros v a Hva. apply Hq. destruct (Hin v a Hva) as [_ Hv].
  rewrite <- EV in Hv.
  destruct (group_from QuickBatch.extract_duration_from_video_name
                       video_files []) as (_ & _ & Hperm).
  apply list_elem_of_In. apply list_elem_of_In in Hv.
  unfold Matching.find_video_files_in_subfolders, Matching.group_by_duration
    in Hv. rewrite Hperm in Hv. exact Hv.
Qed.

Lemma sound_merge_mode_frame_witness :
  snd (sound_merge_mode true case2_audios case2_videos envs_ok
         (<[ in_work "n_30s.wav" := [Byte.x0a] ]>
            {[ in_en "a_30s.mp4" := [Byte.x01] ]}))
  !! in_work "n_30s.wav" = Some [Byte.x0a].
Proof.
  rewrite (sound_merge_mode_frame
             true case2_audios case2_videos envs_ok
             (<[ in_work "n_30s.wav" := [Byte.x0a] ]>
                {[ in_en "a_30s.mp4" := [Byte.x01] ]})
             (fst (sound_merge_mode true case2_audios case2_videos envs_ok
                     (<[ in_work "n_30s.wav" := [Byte.x0a] ]>
                        {[ in_en "a_30s.mp4" := [Byte.x01] ]})))
             (snd (sound_merge_mode true case2_audios case2_videos envs_ok
                     (<[ in_work "n_30s.wav" := [Byte.x0a] ]>
                        {[ in_en "a_30s.mp4" := [Byte.x01] ]})))
             (in_work "n_30s.wav")).
  - reflexivity.
  - apply surjective_pairing.
  - intros v Hv. unfold case2_videos in Hv. simpl in Hv.
    destruct Hv as [E | [E | [E | [E | E] ] ] ]; try subst v; try contradiction; split; discriminate.
Defined.

(** X14. [sound_merge_mode] stops before any call, without changing a file,
    exactly when the encoder is not available or no audio file or no video
    file was found; otherwise, if no deletion of a temporary file is
    refused, it finishes, and the number it reports is at most the number of
    pairs. *)
Theorem sound_merge_mode_ends
        (ffmpeg_found : bool) (wav_files video_files : list path)
        (envs : nat -> env) (fs : FS) :
  (ffmpeg_found = false \/ wav_files = [] \/ video_files = [] ->
   sound_merge_mode ffmpeg_found wav_files video_files envs fs = (Stopped, fs))
  /\ (ffmpeg_found = true -> wav_files <> [] -> video_files <> [] ->
      (forall i, cleanup_fails (envs i) = false) ->
      exists pairs n,
        Matching.merge_pairs (Matching.find_audio_files wav_files)
                             (Matching.find_video_files_in_subfolders
                                video_files) = Some pairs
        /\ fst (sound_merge_mode ffmpeg_found wav_files video_files envs fs)
           = Finished n
        /\ n <= length pairs).
Proof.
  unfold sound_merge_mode. split.
  - intros [-> | [-> | ->] ]; [reflexivity | | ].
    + destruct ffmpeg_found; reflexivity.
    + destruct ffmpeg_found; [|reflexivity]. simpl.
      destruct (Matching.find_audio_files wav_files); reflexivity.
  - intros -> Hw Hv Hcl. simpl.
    destruct (Matching.find_audio_files wav_files) as [|ga A] eqn:EA.
    { apply group_by_duration_nil in EA. contradiction. }
    destruct (Matching.find_video_files_in_subfolders video_files)
      as [|gv V] eqn:EV.
    { apply group_by_duration_nil in EV. contradiction. }
    destruct (matching_pairs_from (ga :: A) (gv :: V)) as (pairs & Hp & _).
    rewrite Hp.
    destruct (merge_all_ends envs pairs 0 0 fs Hcl) as (m & Hfin & Hle).
    exists pairs, m. split; [reflexivity|]. split; [exact Hfin|lia].
Qed.

Lemma sound_merge_mode_ends_witness :
  exists n,
    fst (sound_merge_mode true case2_audios case2_videos envs_ok
           {[ in_en "a_30s.mp4" := [Byte.x01] ]})
    = Finished n
    /\ n <= 3.
Proof.
  destruct (sound_merge_mode_ends true case2_audios case2_videos envs_ok
              {[ in_en "a_30s.mp4" := [Byte.x01] ]}) as [_ H].
  destruct (H eq_refl ltac:(discriminate) ltac:(discriminate)
              (fun _ => eq_refl)) as (pairs & n & Hp & Hfin & Hle).
  exists n. split; [exact Hfin|].
  vm_compute in Hp. injection Hp as <-. exact Hle.
Defined.

End ReplaceExtras.

(** ** More on duplicate names and the rename mode *)

Section RenameMoreFacts.
Import Rename.

Lemma candidate_parent (target_path : path) (counter : nat) :
  parent (Resolver.candidate target_path counter) = parent target_path.
Proof.
  unfold Resolver.candidate. apply parent_join.
  destruct (stem (name target_path)); discriminate.
Qed.

Lemma handle_duplicate_names_parent (fs : FS) (target_path : path) :
  parent (Resolver.handle_duplicate_names fs target_path) = parent target_path.
Proof.
  unfold Resolver.handle_duplicate_names.
  destruct (fs !! target_path); [|reflexivity].
  destruct (probe_terminates fs target_path) as (k & _ & -> & _).
  apply candidate_parent.
Qed.

(** Moving a file to a free path keeps the contents of the files, as a
    multiset. *)
Lemma move_contents (fault : bool) (src dst : path) (fs : FS)
      (r : res unit) (fs' : FS) :
  move fault src dst fs = (r, fs') -> fs !! dst = None ->
  (map_to_list fs').*2 ≡ₚ (map_to_list fs).*2.
Proof.
  unfold move. destruct fault; [intros [= <- <-]; reflexivity|].
  destruct (fs !! src) as [c|] eqn:Hs; intros [= <- <-] Hd; [|reflexivity].
  rewrite map_to_list_insert.
  - rewrite <- (map_to_list_delete fs src c Hs). reflexivity.
  - apply lookup_delete_None. right. exact Hd.
Qed.

Lemma organize_by_language_contents
      (e : env) (cwd file_path : path) (lang_code : pystr) (fs : FS)
      (r : res path) (fs' : FS) :
  organize_by_language e cwd file_path lang_code fs = (r, fs') ->
  (map_to_list fs').*2 ≡ₚ (map_to_list fs).*2.
Proof.
  unfold organize_by_language, create_language_folder, bind, ret, mkdir.
  destruct (mkdir_fails e _); [intros [= <- <-]; reflexivity|].
  set (target := Resolver.handle_duplicate_names fs _).
  destruct (move _ file_path target fs) as [r1 fs1] eqn:Hm.
  intros Heq.
  assert (H1 : (map_to_list fs1).*2 ≡ₚ (map_to_list fs).*2).
  { eapply move_contents; [exact Hm|]. apply handle_duplicate_names_free. }
  destruct r1; inversion Heq; subst; exact H1.
Qed.

Lemma process_file_contents
      (e : env) (cwd : path) (custom_name : pystr) (st : state) (f : path) :
  (map_to_list (files (process_file e cwd custom_name st f))).*2
  ≡ₚ (map_to_list (files st)).*2.
Proof.
  unfold process_file.
  destruct (metadata e f) as [[resolution duration]|]; [|reflexivity].
  set (np := Resolver.handle_duplicate_names (files st) _).
  unfold bind.
  destruct (move _ f np (files st)) as [r1 fs1] eqn:Hm.
  assert (H1 : (map_to_list fs1).*2 ≡ₚ (map_to_list (files st)).*2).
  { eapply move_contents; [exact Hm|]. apply handle_duplicate_names_free. }
  destruct r1 as [[]|ex]; [|exact H1].
  destruct (organize_by_language e cwd np _ fs1) as [r2 fs2] eqn:Ho.
  apply organize_by_language_contents in Ho.
  destruct r2; simpl; rewrite Ho; exact H1.
Qed.

Lemma process_files_contents
      (e : env) (cwd : path) (custom_name : pystr) (l : list path)
      (st : state) :
  (map_to_list (files (fold_left (process_file e cwd custom_name) l st))).*2
  ≡ₚ (map_to_list (files st)).*2.
Proof.
  revert st. induction l as [|f l IH]; intros st; simpl; [reflexivity|].
  rewrite IH. apply process_file_contents.
Qed.

(** A file whose metadata cannot be read is counted as an error, and the
    files are left as they were. *)
Lemma process_file_unreadable
      (e : env) (cwd : path) (custom_name : pystr) (st : state) (f : path) :
  metadata e f = None ->
  process_file e cwd custom_name st f
  = {| processed_count := processed_count st;
       error_count := error_count st + 1;
       metadata_reads := metadata_reads st ++ [f];
       files := files st |}.
Proof. intros H. unfold process_file. rewrite H. reflexivity. Qed.

Lemma process_file_counts
      (e : env) (cwd : path) (custom_name : pystr) (st : state) (f : path) :
  let st' := process_file e cwd custom_name st f in
  processed_count st <= processed_count st'
  /\ error_count st <= error_count st'.
Proof.
  unfold process_file.
  destruct (metadata e f) as [[resolution duration]|]; [|simpl; lia].
  destruct (bind _ _ _) as [[p|x] fs']; simpl; lia.
Qed.

(** The number of files of [l] whose metadata cannot be read. *)
Lemma process_files_unreadable
      (e : env) (cwd : path) (custom_name : pystr) (l : list path)
      (st : state) :
  let st' := fold_left (process_file e cwd custom_name) l st in
  error_count st
  + length (List.filter (fun f => bool_decide (metadata e f = None)) l)
  <= error_count st'
  /\ forall f c, metadata e f = None -> files st !! f = Some c ->
                 files st' !! f = Some c.
Proof.
  revert st. induction l as [|g l IH]; intros st; simpl.
  - split; [lia|auto].
  - destruct (IH (process_file e cwd custom_name st g)) as (Hc & Hk).
    split.
    + destruct (bool_decide (metadata e g = None)) eqn:Hg.
      * apply bool_decide_eq_true in Hg.
        rewrite (process_file_unreadable _ _ _ _ _ Hg) in Hc |- *.
        simpl in *. lia.
      * pose proof (process_file_counts e cwd custom_name st g) as [_ Hle].
        cbv zeta in Hle. lia.
    + intros f c Hf Hfile. apply Hk; [exact Hf|].
      destruct (decide (f = g)) as [->|Hne].
      * rewrite (process_file_unreadable _ _ _ _ _ Hf). exact Hfile.
      * destruct (process_file_spec e cwd custom_name st g) as (_ & _ & Hkeep).
        apply Hkeep; assumption.
Qed.

(** Without refusals, a readable file that exists is processed. *)
Lemma process_file_ok
      (e : env) (cwd : path) (custom_name : pystr) (st : state) (f : path) :
  (forall a b, rename_fails e a b = false) ->
  (forall d, mkdir_fails e d = false) ->
  is_Some (metadata e f) -> is_Some (files st !! f) ->
  processed_count (process_file e cwd custom_name st f)
  = S (processed_count st)
  /\ error_count (process_file e cwd custom_name st f) = error_count st.
Proof.
  intros Hrn Hmk [[resolution duration] Hmeta] [c Hf].
  unfold process_file. rewrite Hmeta.
  unfold bind, move, organize_by_language, create_language_folder, bind, ret,
    mkdir, move.
  rewrite Hrn, Hf, Hmk, Hrn, lookup_insert_eq. simpl. split; [lia|reflexivity].
Qed.

Lemma process_files_ok
      (e : env) (cwd : path) (custom_name : pystr) (l : list path)
      (st : state) :
  (forall a b, rename_fails e a b = false) ->
  (forall d, mkdir_fails e d = false) ->
  NoDup l ->
  (forall f, In f l -> is_Some (metadata e f) /\ is_Some (files st !! f)) ->
  let st' := fold_left (process_file e cwd custom_name) l st in
  processed_count st' = length l + processed_count st
  /\ error_count st' = error_count st.
Proof.
  intros Hrn Hmk. revert st.
  induction l as [|f l IH]; intros st Hnd Hall; simpl; [auto|].
  apply NoDup_cons in Hnd as [Hnotin Hnd].
  destruct (Hall f (or_introl eq_refl)) as [Hmeta Hfile].
  destruct (process_file_ok e cwd custom_name st f Hrn Hmk Hmeta Hfile)
    as [Hp He].
  destruct (IH (process_file e cwd custom_name st f) Hnd) as [Hp' He'].
  { intros g Hg. destruct (Hall g (or_intror Hg)) as [Hm [c Hc]].
    split; [exact Hm|]. exists c.
    destruct (process_file_spec e cwd custom_name st f) as (_ & _ & Hkeep).
    apply Hkeep; [exact Hc|]. intros ->. apply Hnotin.
    apply list_elem_of_In. exact Hg. }
  cbv zeta in Hp', He'. rewrite Hp', He', Hp, He. split; [lia|reflexivity].
Qed.

End RenameMoreFacts.

Section RenameExtras.
Import Rename Samples MoreSamples.
Local Open Scope path_scope.

(** X15. The path returned by [handle_duplicate_names] is never taken, lies
    in the directory of the target, and is returned unchanged when it is
    resolved again; once a file is created there, resolving the same target
    gives another path. *)
Theorem resolved_path_is_new (fs : FS) (target_path : path) :
  let resolved := Resolver.handle_duplicate_names fs target_path in
  fs !! resolved = None
  /\ parent resolved = parent target_path
  /\ Resolver.handle_duplicate_names fs resolved = resolved
  /\ forall content,
       Resolver.handle_duplicate_names (<[resolved := content]> fs) target_path
       <> resolved.
Proof.
  cbv zeta.
  pose proof (handle_duplicate_names_free fs target_path) as Hfree.
  split; [exact Hfree|]. split; [apply handle_duplicate_names_parent|].
  split.
  - unfold Resolver.handle_duplicate_names at 1. rewrite Hfree. reflexivity.
  - intros content Heq.
    pose proof (handle_duplicate_names_free
                  (<[Resolver.handle_duplicate_names fs target_path := content]>
                     fs) target_path) as Hfree'.
    rewrite Heq, lookup_insert_eq in Hfree'. discriminate.
Qed.

(** X16. When the folder can be created and the renaming is not refused,
    [organize_by_language] moves an existing file, with its content, to a
    path in the folder [cwd / LANG] that was not taken, and changes no other
    file; when it raises, no file has changed. *)
Theorem organize_by_language_moves
        (e : env) (cwd file_path : path) (lang_code : pystr) (fs : FS)
        (content : bytes) :
  fs !! file_path = Some content -> name file_path <> [] ->
  exists target_path,
    target_path
    = Resolver.handle_duplicate_names
        fs (cwd / upper lang_code / name file_path)
    /\ fs !! target_path = None
    /\ parent target_path = cwd / upper lang_code
    /\ (mkdir_fails e (cwd / upper lang_code) = false ->
        rename_fails e file_path target_path = false ->
        exists fs',
          organize_by_language e cwd file_path lang_code fs
          = (Ok target_path, fs')
          /\ fs' !! target_path = Some content
          /\ fs' !! file_path = None
          /\ forall q, q <> file_path -> q <> target_path ->
                       fs' !! q = fs !! q)
    /\ (forall x fs',
          organize_by_language e cwd file_path lang_code fs = (Err x, fs') ->
          fs' = fs).
Proof.
  intros Hfile Hname.
  set (target := Resolver.handle_duplicate_names
                   fs (cwd / upper lang_code / name file_path)).
  assert (Hfree : fs !! target = None) by apply handle_duplicate_names_free.
  assert (Hne : target <> file_path) by (intros E; congruence).
  exists target. split; [reflexivity|]. split; [exact Hfree|].
  split; [|split].
  - unfold target. rewrite handle_duplicate_names_parent.
    apply parent_join. exact Hname.
  - intros Hmk Hrn.
    exists (<[target := content]> (delete file_path fs)).
    unfold organize_by_language, create_language_folder, bind, ret, mkdir,
      move.
    rewrite Hmk. fold target. rewrite Hrn, Hfile.
    split; [reflexivity|]. split; [apply lookup_insert_eq|].
    split.
    + rewrite lookup_insert_ne by exact Hne. apply lookup_delete_eq.
    + intros q Hq1 Hq2.
      rewrite lookup_insert_ne, lookup_delete_ne by congruence. reflexivity.
  - intros x fs'.
    unfold organize_by_language, create_language_folder, bind, ret, mkdir,
      move.
    destruct (mkdir_fails e _); [intros [= _ <-]; reflexivity|].
    fold target. destruct (rename_fails e file_path target);
      [intros [= _ <-]; reflexivity|].
    rewrite Hfile. discriminate.
Qed.

Lemma organize_by_language_moves_witness :
  fst (organize_by_language rename_env work ordinary_file (str "fr") fs_rename)
  = Ok [str "work"; str "FR"; str "fr_intro.mp4"].
Proof.
  destruct (organize_by_language_moves
              rename_env work ordinary_file (str "fr") fs_rename [Byte.x00]
              eq_refl ltac:(discriminate))
    as (target & Htarget & _ & _ & Hok & _).
  destruct (Hok eq_refl eq_refl) as (fs' & Hrun & _).
  rewrite Hrun, Htarget. reflexivity.
Defined.

(** X17. Whatever the metadata reader returns and whichever renamings are
    refused, a run of the rename mode neither destroys nor duplicates
    content: the contents of the files after the run are those before it. *)
Theorem rename_mode_keeps_contents
        (e : env) (cwd : path) (custom_name : pystr)
        (mp4_files : list path) (fs : FS) (st : state) :
  video_rename_mode e cwd custom_name mp4_files fs = Some st ->
  (map_to_list (files st)).*2 ≡ₚ (map_to_list fs).*2
  /\ size (files st) = size fs.
Proof.
  intros Hrun. unfold video_rename_mode in Hrun.
  destruct custom_name as [|c0 cn]; [discriminate|].
  destruct mp4_files as [|f0 fl]; [discriminate|].
  injection Hrun as <-.
  match goal with
  | |- context [fold_left ?f ?l ?s] =>
      pose proof (process_files_contents e cwd (c0 :: cn) l s) as Hperm
  end.
  simpl files in Hperm at 2.
  split; [exact Hperm|].
  apply Permutation_length in Hperm.
  rewrite !length_fmap, !length_map_to_list in Hperm. exact Hperm.
Qed.

Lemma rename_mode_keeps_contents_witness :
  exists st,
    video_rename_mode env_one_unreadable work (str "promo")
                      [readable_file; unreadable_file] fs_two_files = Some st
    /\ size (files st) = 2.
Proof.
  eexists. split; [reflexivity|].
  match goal with
  | |- context [files ?st] =>
      destruct (rename_mode_keeps_contents
                  env_one_unreadable work (str "promo")
                  [readable_file; unreadable_file] fs_two_files st eq_refl)
        as [_ Hsize]
  end.
  rewrite Hsize. reflexivity.
Defined.

(** X18. When no renaming and no folder creation is refused, and the files
    found are distinct, exist and are readable, the rename mode processes
    every file that is not a work in progress, and counts no error. *)
Theorem rename_mode_processes_all
        (e : env) (cwd : path) (custom_name : pystr)
        (mp4_files : list path) (fs : FS) (st : state) :
  video_rename_mode e cwd custom_name mp4_files fs = Some st ->
  (forall a b, rename_fails e a b = false) ->
  (forall d, mkdir_fails e d = false) ->
  NoDup mp4_files ->
  (forall f, In f mp4_files -> is_wip f = false ->
             is_Some (metadata e f) /\ is_Some (fs !! f)) ->
  processed_count st
  = length (List.filter (fun f => negb (is_wip f)) mp4_files)
  /\ error_count st = 0.
Proof.
  intros Hrun Hrn Hmk Hnd Hall. unfold video_rename_mode in Hrun.
  destruct custom_name as [|c0 cn]; [discriminate|].
  destruct mp4_files as [|f0 fl]; [discriminate|].
  injection Hrun as <-.
  match goal with
  | |- context [fold_left ?f ?l ?s] =>
      destruct (process_files_ok e cwd (c0 :: cn) l s Hrn Hmk) as [Hp He]
  end.
  - change (NoDup (List.filter (fun f => negb (is_wip f)) (f0 :: fl))).
    apply NoDup_ListNoDup, List.NoDup_filter, NoDup_ListNoDup, Hnd.
  - intros f Hf.
    change (In f (List.filter (fun f => negb (is_wip f)) (f0 :: fl))) in Hf.
    apply List.filter_In in Hf as [Hin Hw].
    apply negb_true_iff in Hw. apply Hall; assumption.
  - cbv zeta in Hp, He. simpl processed_count in Hp at 2.
    simpl error_count in He at 2. rewrite Hp, He, Nat.add_0_r. auto.
Qed.

Lemma rename_mode_processes_all_witness :
  exists st,
    video_rename_mode rename_env work (str "promo")
                      [ordinary_file; wip_file] fs_rename = Some st
    /\ processed_count st = 1 /\ error_count st = 0.
Proof.
  eexists. split; [reflexivity|].
  match goal with
  | |- context [processed_count ?st] =>
      destruct (rename_mode_processes_all
                  rename_env work (str "promo")
                  [ordinary_file; wip_file] fs_rename st eq_refl
                  (fun _ _ => eq_refl) (fun _ => eq_refl))
        as [Hp He]
  end.
  - repeat constructor; [|intros H; inversion H].
    intros H. apply list_elem_of_In in H. destruct H as [H|[]].
    discriminate H.
  - intros f [<-|[<-|[]]] Hw.
    + split; [exists (str "1080x1920", 30); reflexivity|].
      exists [Byte.x00]. reflexivity.
    + vm_compute in Hw. discriminate Hw.
  - split; [rewrite Hp|rewrite He]; reflexivity.
Defined.

(** X19. A file whose metadata cannot be read is neither renamed nor moved
    by the rename mode: it is at its path with its content after the run,
    and the error counter is at least the number of such files among those
    that are not works in progress. *)
Theorem unreadable_files_stay
        (e : env) (cwd : path) (custom_name : pystr)
        (mp4_files : list path) (fs : FS) (st : state)
        (video_file : path) (content : bytes) :
  video_rename_mode e cwd custom_name mp4_files fs = Some st ->
  metadata e video_file = None ->
  fs !! video_file = Some content ->
  files st !! video_file = Some content
  /\ length (List.filter (fun f => bool_decide (metadata e f = None))
                         (List.filter (fun f => negb (is_wip f)) mp4_files))
     <= error_count st.
Proof.
  intros Hrun Hmeta Hfile. unfold video_rename_mode in Hrun.
  destruct custom_name as [|c0 cn]; [discriminate|].
  destruct mp4_files as [|f0 fl]; [discriminate|].
  injection Hrun as <-.
  match goal with
  | |- context [fold_left ?f ?l ?s] =>
      destruct (process_files_unreadable e cwd (c0 :: cn) l s) as [Hc Hk]
  end.
  split; [apply Hk; assumption|exact Hc].
Qed.

Lemma unreadable_files_stay_witness :
  exists st,
    video_rename_mode env_one_unreadable work (str "promo")
                      [readable_file; unreadable_file] fs_two_files = Some st
    /\ files st !! unreadable_file = Some [Byte.x09]
    /\ 1 <= error_count st.
Proof.
  eexists. split; [reflexivity|].
  match goal with
  | |- context [files ?st] =>
      destruct (unreadable_files_stay
                  env_one_unreadable work (str "promo")
                  [readable_file; unreadable_file] fs_two_files st
                  unreadable_file [Byte.x09] eq_refl eq_refl eq_refl)
        as [Hfile Hcount]
  end.
  split; [exact Hfile|]. exact Hcount.
Defined.

End RenameExtras.

(** ** Drag and drop mode *)

Section DragDropFacts.
Import DragDrop.
Local Open Scope path_scope.

(** The two tests of the loop over the dragged paths. *)
Lemma classify_from (fs : FS) (files : list path) (acc : list path * list path) :
  fold_left (classify_one fs) files acc
  = (fst acc
       ++ List.filter
            (fun p => bool_decide (is_Some (fs !! p))
                      && bool_decide (lower (suffix (name p)) = str ".wav"))
            files,
     snd acc
       ++ List.filter
            (fun p => bool_decide (is_Some (fs !! p))
                      && bool_decide (lower (suffix (name p)) = str ".mp4"))
            files).
Proof.
  revert acc. induction files as [|p files IH]; intros [a v]; simpl.
  - rewrite !app_nil_r. reflexivity.
  - rewrite IH. unfold classify_one.
    destruct (fs !! p) as [c|] eqn:Hp.
    + rewrite (bool_decide_eq_true_2 (is_Some (Some c))) by eauto.
      match goal with
      | |- context [@decide ?P ?dec] => destruct (@decide P dec) as [Hw|Hw]
      end.
      * rewrite (bool_decide_eq_true_2 _ Hw).
        rewrite bool_decide_eq_false_2 by (rewrite Hw; discriminate).
        simpl. rewrite <- app_assoc. reflexivity.
      * rewrite (bool_decide_eq_false_2 _ Hw).
        match goal with
        | |- context [@decide ?P ?dec] => destruct (@decide P dec) as [Hm|Hm]
        end.
        -- rewrite (bool_decide_eq_true_2 _ Hm). simpl.
           rewrite <- app_assoc. reflexivity.
        -- rewrite (bool_decide_eq_false_2 _ Hm). reflexivity.
    + rewrite (bool_decide_eq_false_2 (is_Some None))
        by (intros [? ?]; discriminate).
      reflexivity.
Qed.

Lemma ffmpeg_to_keeps (o : Replace.encoder_outcome) (output_path : path)
      (fs : FS) (r : res unit) (fs' : FS) :
  ffmpeg_to o output_path fs = (r, fs') -> fs !! output_path = None ->
  (forall q c, fs !! q = Some c -> fs' !! q = Some c)
  /\ (forall q, fs !! q = None -> is_Some (fs' !! q) -> q = output_path).
Proof.
  intros H Hfree.
  assert (Hins : forall x q,
             (forall c, fs !! q = Some c ->
                        <[output_path := x]> fs !! q = Some c)
             /\ (fs !! q = None -> is_Some (<[output_path := x]> fs !! q) ->
                 q = output_path)).
  { intros x q. destruct (decide (q = output_path)) as [->|Hne].
    - split; [congruence|auto].
    - rewrite lookup_insert_ne by congruence.
      split; [auto|]. intros -> [? ?]. discriminate. }
  unfold ffmpeg_to in H. destruct o as [out|[partial|]|]; injection H as <- <-.
  - split; intros q; apply Hins.
  - split; intros q; apply Hins.
  - rewrite delete_id by exact Hfree.
    split; [auto|]. intros q -> [? ?]. discriminate.
  - split; [auto|]. intros q -> [? ?]. discriminate.
Qed.

Lemma convert_all_spec (e : env) (sound_dir : path) (video_files : list path)
      (i n : nat) (fs : FS) (r : Replace.mode_result) (fs' : FS) :
  convert_all e i sound_dir video_files n fs = (r, fs') ->
  Forall (fun v => name v <> []) video_files ->
  (forall q c, fs !! q = Some c -> fs' !! q = Some c)
  /\ (forall q, fs !! q = None -> is_Some (fs' !! q) -> parent q = sound_dir)
  /\ r <> Replace.Stopped
  /\ (forall m, r = Replace.Finished m -> n <= m <= n + length video_files)
  /\ (r = Replace.Crashed ->
      exists j, encoder e j = Replace.EncodeNotFound).
Proof.
  revert i n fs. induction video_files as [|v l IH]; intros i n fs; simpl.
  - intros [= <- <-] _.
    split; [auto|]. split; [intros q -> [? ?]; discriminate|].
    split; [discriminate|]. split; [intros m [= <-]; lia|discriminate].
  - intros H Hnames. apply Forall_cons in Hnames as [Hv Hnames].
    set (out := Resolver.handle_duplicate_names fs (sound_dir / name v)) in H.
    assert (Hfree : fs !! out = None) by apply handle_duplicate_names_free.
    assert (Hpar : parent out = sound_dir).
    { unfold out. rewrite handle_duplicate_names_parent.
      apply parent_join. exact Hv. }
    destruct (ffmpeg_to (encoder e i) out fs) as [r1 fs1] eqn:Hf.
    destruct (ffmpeg_to_keeps _ _ _ _ _ Hf Hfree) as [Hk1 Hn1].
    assert (Hrest : forall n',
               convert_all e (S i) sound_dir l n' fs1 = (r, fs') ->
               (forall q c, fs !! q = Some c -> fs' !! q = Some c)
               /\ (forall q, fs !! q = None -> is_Some (fs' !! q) ->
                             parent q = sound_dir)
               /\ r <> Replace.Stopped
               /\ (forall m, r = Replace.Finished m ->
                             n' <= m <= n' + length l)
               /\ (r = Replace.Crashed ->
                   exists j, encoder e j = Replace.EncodeNotFound)).
    { intros n' H'.
      destruct (IH _ _ _ H' Hnames) as (Hk & Hn & Hs & Hm & Hc).
      split; [auto|]. split; [|auto].
      intros q Hq Hsome. destruct (fs1 !! q) as [c|] eqn:Hq1.
      - rewrite (Hn1 q Hq) by eauto. exact Hpar.
      - apply Hn; assumption. }
    destruct r1 as [[]|[|]].
    + destruct (Hrest _ H) as (Hk & Hn & Hs & Hm & Hc).
      split; [exact Hk|]. split; [exact Hn|]. split; [exact Hs|].
      split; [|exact Hc]. intros m Hr. apply Hm in Hr. lia.
    + destruct (Hrest _ H) as (Hk & Hn & Hs & Hm & Hc).
      split; [exact Hk|]. split; [exact Hn|]. split; [exact Hs|].
      split; [|exact Hc]. intros m Hr. apply Hm in Hr. lia.
    + injection H as <- <-.
      split; [exact Hk1|].
      split; [intros q Hq Hsome; rewrite (Hn1 q Hq Hsome); exact Hpar|].
      split; [discriminate|]. split; [discriminate|]. intros _.
      exists i. unfold ffmpeg_to in Hf.
      destruct (encoder e i) as [o|[p|]|]; try discriminate. reflexivity.
Qed.

Lemma convert_all_ok (e : env) (sound_dir : path) (video_files : list path)
      (i n : nat) (fs : FS) :
  (forall j, exists output, encoder e j = Replace.EncodeOk output) ->
  exists fs',
    convert_all e i sound_dir video_files n fs
    = (Replace.Finished (n + length video_files), fs')
    /\ size fs' = size fs + length video_files.
Proof.
  intros Hok. revert i n fs.
  induction video_files as [|v l IH]; intros i n fs; simpl.
  - exists fs. rewrite !Nat.add_0_r. auto.
  - set (out := Resolver.handle_duplicate_names fs (sound_dir / name v)).
    assert (Hfree : fs !! out = None) by apply handle_duplicate_names_free.
    destruct (Hok i) as [output ->]. simpl.
    destruct (IH (S i) (n + 1) (<[out := output]> fs)) as (fs' & -> & Hsize).
    exists fs'. split; [f_equal; f_equal; lia|].
    rewrite Hsize, map_size_insert_None by exact Hfree. lia.
Qed.

Lemma mp4_name (p : path) :
  lower (suffix (name p)) = str ".mp4" -> name p <> [].
Proof. intros H E. rewrite E in H. discriminate H. Qed.

Lemma classify_videos_named (fs : FS) (files : list path) :
  Forall (fun v => name v <> []) (snd (classify fs files)).
Proof.
  unfold classify. rewrite classify_from. simpl.
  apply Forall_forall. intros v Hv. apply list_elem_of_In in Hv.
  apply List.filter_In in Hv as [_ Hv].
  apply andb_true_iff in Hv as [_ Hv]. apply bool_decide_eq_true in Hv.
  apply mp4_name. exact Hv.
Qed.

Lemma drag_drop_mode_spec (ffmpeg_found : bool) (e : env) (files : list path)
      (fs : FS) (r : Replace.mode_result) (fs' : FS) :
  drag_drop_mode ffmpeg_found e files fs = (r, fs') ->
  (forall q c, fs !! q = Some c -> fs' !! q = Some c)
  /\ (forall q, fs !! q = None -> is_Some (fs' !! q) ->
                exists audio_file,
                  fst (classify fs files) = [audio_file]
                  /\ parent q = parent audio_file / str "sound")
  /\ (r = Replace.Stopped -> fs' = fs)
  /\ (forall m, r = Replace.Finished m ->
                m <= length (snd (classify fs files)))
  /\ (r = Replace.Crashed ->
      mkdir_fails e = true
      \/ exists j, encoder e j = Replace.EncodeNotFound).
Proof.
  unfold drag_drop_mode.
  assert (Hsame : forall r0 : Replace.mode_result,
             (r0, fs) = (r, fs') -> (forall m, r0 <> Replace.Finished m) ->
             r0 <> Replace.Crashed \/ mkdir_fails e = true ->
             (forall q c, fs !! q = Some c -> fs' !! q = Some c)
             /\ (forall q, fs !! q = None -> is_Some (fs' !! q) ->
                           exists audio_file,
                             fst (classify fs files) = [audio_file]
                             /\ parent q = parent audio_file / str "sound")
             /\ (r = Replace.Stopped -> fs' = fs)
             /\ (forall m, r = Replace.Finished m ->
                         m <= length (snd (classify fs files)))
             /\ (r = Replace.Crashed ->
                 mkdir_fails e = true
                 \/ exists j, encoder e j = Replace.EncodeNotFound)).
  { intros r0 [= <- <-] Hr0 Hcr. split; [auto|].
    split; [intros q -> [? ?]; discriminate|]. split; [auto|].
    split.
    - intros m E. destruct (Hr0 m E).
    - intros ->. destruct Hcr as [Hcr|Hcr]; [congruence|auto]. }
  destruct ffmpeg_found; simpl.
  2: { intros H. apply (Hsame _ H); [discriminate|left; discriminate]. }
  pose proof (classify_videos_named fs files) as Hnames.
  destruct (classify fs files) as [audio_files video_files]; simpl in *.
  destruct audio_files as [|audio_file [|a2 rest]].
  1,3: intros H; apply (Hsame _ H); [discriminate|left; discriminate].
  destruct video_files as [|v l].
  { intros H. apply (Hsame _ H); [discriminate|left; discriminate]. }
  unfold mkdir. destruct (mkdir_fails e).
  { intros H. apply (Hsame _ H); [discriminate|right; reflexivity]. }
  intros H.
  destruct (convert_all_spec _ _ _ _ _ _ _ _ H Hnames)
    as (Hk & Hn & Hs & Hm & Hc).
  split; [exact Hk|].
  split; [intros q Hq Hsome; exists audio_file; split; [reflexivity|auto]|].
  split; [intros ->; congruence|].
  split; [intros m ->; destruct (Hm m eq_refl); lia|].
  intros Hr. right. auto.
Qed.

End DragDropFacts.

Section DragDropExtras.
Import DragDrop Samples MoreSamples.
Local Open Scope path_scope.

(** X20. The loop over the dragged paths keeps, in their order, the existing
    paths whose suffix is [.wav] in any letter case as audio files and those
    whose suffix is [.mp4] in any letter case as video files; paths that do
    not exist and files of other kinds are dropped. *)
Theorem classify_filters (fs : FS) (files : list path) :
  classify fs files
  = (List.filter
       (fun p => bool_decide (is_Some (fs !! p))
                 && bool_decide (lower (suffix (name p)) = str ".wav"))
       files,
     List.filter
       (fun p => bool_decide (is_Some (fs !! p))
                 && bool_decide (lower (suffix (name p)) = str ".mp4"))
       files).
Proof. unfold classify. rewrite classify_from. reflexivity. Qed.

(** X21. [drag_drop_mode] never changes or removes a file that exists,
    whatever the encoder does: the dragged audio and video files in
    particular are as they were. *)
Theorem drag_drop_keeps_files
        (ffmpeg_found : bool) (e : env) (files : list path) (fs : FS)
        (r : Replace.mode_result) (fs' : FS) (q : path) (content : bytes) :
  drag_drop_mode ffmpeg_found e files fs = (r, fs') ->
  fs !! q = Some content -> fs' !! q = Some content.
Proof.
  intros H. destruct (drag_drop_mode_spec _ _ _ _ _ _ H) as (Hk & _).
  apply Hk.
Qed.

Lemma drag_drop_keeps_files_witness :
  snd (drag_drop_mode true drag_env
         [dragged_audio; dragged_video1; dragged_missing; dragged_text;
          dragged_video2] fs_dragged)
  !! dragged_video2 = Some [Byte.x02].
Proof.
  apply (drag_drop_keeps_files
           true drag_env
           [dragged_audio; dragged_video1; dragged_missing; dragged_text;
            dragged_video2] fs_dragged
           (fst (drag_drop_mode true drag_env
                   [dragged_audio; dragged_video1; dragged_missing;
                    dragged_text; dragged_video2] fs_dragged))).
  - apply surjective_pairing.
  - reflexivity.
Defined.

(** X22. Every file that [drag_drop_mode] creates lies in the folder
    [sound] next to the one audio file, also when the encoder fails and
    leaves a partial output. *)
Theorem drag_drop_writes_to_sound
        (ffmpeg_found : bool) (e : env) (files : list path) (fs : FS)
        (r : Replace.mode_result) (fs' : FS) (q : path) :
  drag_drop_mode ffmpeg_found e files fs = (r, fs') ->
  fs !! q = None -> is_Some (fs' !! q) ->
  exists audio_file,
    fst (classify fs files) = [audio_file]
    /\ parent q = parent audio_file / str "sound".
Proof.
  intros H. destruct (drag_drop_mode_spec _ _ _ _ _ _ H) as (_ & Hn & _).
  apply Hn.
Qed.

Lemma drag_drop_writes_to_sound_witness :
  parent [str "work"; str "sound"; str "two.MP4"]
  = parent dragged_audio / str "sound".
Proof.
  destruct (drag_drop_writes_to_sound
              true drag_env
              [dragged_audio; dragged_video1; dragged_missing; dragged_text;
               dragged_video2] fs_dragged
              (fst (drag_drop_mode true drag_env
                      [dragged_audio; dragged_video1; dragged_missing;
                       dragged_text; dragged_video2] fs_dragged))
              (snd (drag_drop_mode true drag_env
                      [dragged_audio; dragged_video1; dragged_missing;
                       dragged_text; dragged_video2] fs_dragged))
              [str "work"; str "sound"; str "two.MP4"])
    as (audio_file & Ha & Hp).
  - apply surjective_pairing.
  - reflexivity.
  - exists [Byte.x00]. reflexivity.
  - vm_compute in Ha. injection Ha as <-. exact Hp.
Defined.

(** X23. [drag_drop_mode] stops before any conversion, with the files
    unchanged, exactly when the encoder is not available, or the number of
    audio files among the dragged paths is not one, or there is no video
    file among them; when it finishes, the number it reports is at most the
    number of video files; and it ends with an exception only if the folder
    cannot be created or the encoder cannot be started. *)
Theorem drag_drop_mode_ends
        (ffmpeg_found : bool) (e : env) (files : list path) (fs : FS) :
  let audio_files := fst (classify fs files) in
  let video_files := snd (classify fs files) in
  let result := drag_drop_mode ffmpeg_found e files fs in
  (fst result = Replace.Stopped <->
   ffmpeg_found = false \/ length audio_files <> 1 \/ video_files = [])
  /\ (fst result = Replace.Stopped -> snd result = fs)
  /\ (forall n, fst result = Replace.Finished n -> n <= length video_files)
  /\ (fst result = Replace.Crashed ->
      mkdir_fails e = true
      \/ exists i, encoder e i = Replace.EncodeNotFound).
Proof.
  cbv zeta.
  destruct (drag_drop_mode ffmpeg_found e files fs) as [r fs'] eqn:H.
  destruct (drag_drop_mode_spec _ _ _ _ _ _ H) as (_ & _ & Hs & Hm & Hc).
  simpl. split; [|auto]. clear Hs Hm Hc.
  unfold drag_drop_mode in H. destruct ffmpeg_found; simpl in H.
  2: { injection H as <- <-. split; auto. }
  pose proof (classify_videos_named fs files) as Hnames.
  destruct (classify fs files) as [audio_files video_files]; simpl in *.
  destruct audio_files as [|audio_file [|a2 rest]].
  1,3: injection H as <- <-; split; [intros _; right; left; simpl; lia|auto].
  destruct video_files as [|v l].
  { injection H as <- <-. split; auto. }
  unfold mkdir in H. destruct (mkdir_fails e).
  { injection H as <- <-.
    split; [discriminate|].
    intros [?|[?|?]]; [discriminate|simpl in *; lia|discriminate]. }
  destruct (convert_all_spec _ _ _ _ _ _ _ _ H Hnames) as (_ & _ & Hs & _).
  split; [intros ->; congruence|].
  intros [?|[?|?]]; [discriminate|simpl in *; lia|discriminate].
Qed.

(** X24. When the encoder is available and succeeds on every video, one
    audio file and at least one video file were dragged and the folder can
    be created, [drag_drop_mode] reports all the video files as processed
    and has created exactly one new file for each. *)
Theorem drag_drop_converts_all
        (e : env) (files : list path) (fs : FS)
        (audio_file : path) (video_files : list path) :
  classify fs files = ([audio_file], video_files) ->
  video_files <> [] ->
  mkdir_fails e = false ->
  (forall i, exists output, encoder e i = Replace.EncodeOk output) ->
  exists fs',
    drag_drop_mode true e files fs
    = (Replace.Finished (length video_files), fs')
    /\ size fs' = size fs + length video_files.
Proof.
  intros Hcl Hne Hmk Hok. unfold drag_drop_mode. simpl. rewrite Hcl.
  destruct video_files as [|v l]; [contradiction|].
  unfold mkdir. rewrite Hmk.
  apply (convert_all_ok e (parent audio_file / str "sound") (v :: l) 0 0 fs
                        Hok).
Qed.

Lemma drag_drop_converts_all_witness :
  exists fs',
    drag_drop_mode true drag_env_ok
      [dragged_audio; dragged_video1; dragged_missing; dragged_text;
       dragged_video2] fs_dragged
    = (Replace.Finished 2, fs')
    /\ size fs' = 6.
Proof.
  destruct (drag_drop_converts_all
              drag_env_ok
              [dragged_audio; dragged_video1; dragged_missing; dragged_text;
               dragged_video2] fs_dragged
              dragged_audio [dragged_video1; dragged_video2]
              eq_refl ltac:(discriminate) eq_refl
              (fun _ => ex_intro _ encoded_bytes eq_refl))
    as (fs' & Hrun & Hsize).
  exists fs'. split; [exact Hrun|exact Hsize].
Defined.

End DragDropExtras.
